(** * Virtual patient simulator: case loading, conversation state, diagnosis scoring

    A shallow embedding of [virtual_patient.py] and [virtual_patient_2(1).py]
    together with the parts of Python's [str], [re] and [difflib] they call.

    Conventions.
    - A Python [str] is a [text]: the list of its code points.  The case files
      are decoded as latin-1, so every code point is below 256 and one [ascii]
      stands for one code point.  Doctor messages are modelled over the same
      alphabet.
    - Exceptions are values of [exn]; a call that may raise returns a [result].
    - [print] calls are not modelled.
    - Object state is passed explicitly: a method takes the [VirtualPatient]
      value and returns the new one. *)

From Stdlib Require Import List Ascii String Arith Bool Lia PeanoNat ZArith.
From Stdlib Require Import QArith Sorted.
Import ListNotations.
Local Open Scope nat_scope.
Local Open Scope bool_scope.
Local Open Scope list_scope.

(* ================================================================= *)
(** ** Text and characters *)

Definition text := list ascii.

Definition txt (s : string) : text := list_ascii_of_string s.

Definition code (c : ascii) : nat := nat_of_ascii c.

Definition in_range (lo hi : nat) (c : ascii) : bool :=
  (lo <=? code c) && (code c <=? hi).

(** [str.isspace] on one code point below 256: TAB..CR, FS..US, space,
    NEL (0x85) and NBSP (0xA0).  The same set is [\s] in a [str] pattern. *)
Definition isspace (c : ascii) : bool :=
  in_range 9 13 c || in_range 28 32 c || (code c =? 133) || (code c =? 160).

(** [\d] in a [str] pattern: the decimal digits; below 256 only [0-9]. *)
Definition isdecimal (c : ascii) : bool := in_range 48 57 c.

(** Uppercase letters below 256: A-Z, À-Ö, Ø-Þ. *)
Definition isupper_char (c : ascii) : bool :=
  in_range 65 90 c || in_range 192 214 c || in_range 216 222 c.

(** Lowercase characters below 256: a-z, ª, µ, º, ß-ö, ø-ÿ. *)
Definition islower_char (c : ascii) : bool :=
  in_range 97 122 c || (code c =? 170) || (code c =? 181) || (code c =? 186)
  || in_range 223 246 c || in_range 248 255 c.

(** One code point of [str.lower]: every uppercase letter below 256 has its
    lowercase form 32 places further. *)
Definition lower_char (c : ascii) : ascii :=
  if isupper_char c then ascii_of_nat (code c + 32) else c.

(** [s.lower()] *)
Definition lower (s : text) : text := map lower_char s.

(** [s.isupper()]: no lowercase character and at least one uppercase one
    (there is no titlecase character below 256). *)
Definition isupper (s : text) : bool :=
  negb (existsb islower_char s) && existsb isupper_char s.

Definition ascii_eqb (a b : ascii) : bool := Ascii.eqb a b.

(** [len(s)] *)
Definition len (s : text) : nat := List.length s.

(** [s.startswith(p)] *)
Fixpoint startswith (p s : text) : bool :=
  match p, s with
  | [], _ => true
  | _ :: _, [] => false
  | x :: p', y :: s' => ascii_eqb x y && startswith p' s'
  end.

(** [sub in s] *)
Fixpoint contains (sub s : text) : bool :=
  startswith sub s ||
  match s with
  | [] => false
  | _ :: s' => contains sub s'
  end.

Fixpoint lstrip (s : text) : text :=
  match s with
  | c :: s' => if isspace c then lstrip s' else s
  | [] => []
  end.

Definition rstrip (s : text) : text := rev (lstrip (rev s)).

(** [s.strip()] *)
Definition strip (s : text) : text := rstrip (lstrip s).

(** [s.replace(old, new)] for a non-empty [old] (every call site passes a
    non-empty literal): occurrences are replaced from the left and do not
    overlap.  [skip] counts the characters of an occurrence still to drop. *)
Fixpoint replace_from (old new : text) (skip : nat) (s : text) : text :=
  match s with
  | [] => []
  | c :: s' =>
      match skip with
      | S k => replace_from old new k s'
      | O =>
          if startswith old s
          then new ++ replace_from old new (len old - 1) s'
          else c :: replace_from old new 0 s'
      end
  end.

Definition replace (old new s : text) : text := replace_from old new 0 s.

(** [s.split(sep)] for a one-character separator. *)
Fixpoint split_char (sep : ascii) (s : text) : list text :=
  match s with
  | [] => [[]]
  | c :: s' =>
      if ascii_eqb c sep then [] :: split_char sep s'
      else match split_char sep s' with
           | l :: ls => (c :: l) :: ls
           | [] => [[c]]
           end
  end.

(** [sep.join(parts)] *)
Fixpoint join (sep : text) (parts : list text) : text :=
  match parts with
  | [] => []
  | [p] => p
  | p :: ps => p ++ sep ++ join sep ps
  end.

Definition newline : ascii := ascii_of_nat 10.
Definition dquote : ascii := ascii_of_nat 34.

(* ================================================================= *)
(** ** Regular expressions ([re])

    The patterns of the two loaders use literals, one-character classes,
    concatenation, alternation, [?], [*] and [+] on a one-character class,
    capturing groups, a lookahead and [^].  [exec] is a backtracking matcher
    in continuation-passing style: the continuation is the rest of the
    pattern, a failure of the continuation makes the current construct try
    its next choice, in the order of [re] (greedy first, left alternative
    first). *)

Inductive regex : Type :=
| Eps : regex
| Bos : regex                          (* ^ (without MULTILINE) *)
| Cls : (ascii -> bool) -> regex       (* one character of a class *)
| Cat : regex -> regex -> regex
| Alt : regex -> regex -> regex        (* r1|r2 *)
| Opt : regex -> regex                 (* r? *)
| Star : (ascii -> bool) -> regex      (* c*, c a one-character class *)
| Grp : nat -> regex -> regex          (* capturing group number n *)
| Ahead : regex -> regex.              (* (?=r) *)

Definition captures := list (nat * text).

Fixpoint star_cls (A : Type) (p : ascii -> bool) (pos : nat) (s : text)
    (k : nat -> text -> option A) : option A :=
  match s with
  | x :: s' =>
      if p x
      then match star_cls A p (S pos) s' k with
           | Some r => Some r
           | None => k pos s
           end
      else k pos s
  | [] => k pos s
  end.

Fixpoint exec (r : regex) (A : Type) (pos : nat) (s : text) (c : captures)
    (k : nat -> text -> captures -> option A) {struct r} : option A :=
  match r with
  | Eps => k pos s c
  | Bos => if pos =? 0 then k pos s c else None
  | Cls p =>
      match s with
      | x :: s' => if p x then k (S pos) s' c else None
      | [] => None
      end
  | Cat r1 r2 =>
      exec r1 A pos s c (fun pos' s' c' => exec r2 A pos' s' c' k)
  | Alt r1 r2 =>
      match exec r1 A pos s c k with
      | Some x => Some x
      | None => exec r2 A pos s c k
      end
  | Opt r1 =>
      match exec r1 A pos s c k with
      | Some x => Some x
      | None => k pos s c
      end
  | Star p => star_cls A p pos s (fun pos' s' => k pos' s' c)
  | Grp n r1 =>
      exec r1 A pos s c
        (fun pos' s' c' => k pos' s' ((n, firstn (pos' - pos) s) :: c'))
  | Ahead r1 =>
      match exec r1 captures pos s c (fun _ _ c' => Some c') with
      | Some c' => k pos s c'
      | None => None
      end
  end.

(** A match object: the span of the whole match and the groups. *)
Record Match := mkMatch {
  m_start : nat;
  m_end : nat;
  m_groups : captures
}.

(** [m.group(n)] for a group that took part in the match (in every pattern
    below each group does whenever the pattern matches). *)
Fixpoint group_of (n : nat) (c : captures) : text :=
  match c with
  | [] => []
  | (i, t) :: c' => if i =? n then t else group_of n c'
  end.

Definition group (n : nat) (m : Match) : text := group_of n (m_groups m).

Definition match_at (r : regex) (pos : nat) (s : text) : option Match :=
  exec r Match pos s [] (fun e _ c => Some (mkMatch pos e c)).

(** [re.match(r, s)] *)
Definition re_match (r : regex) (s : text) : option Match := match_at r 0 s.

Fixpoint search_from (r : regex) (pos : nat) (s : text) : option Match :=
  match match_at r pos s with
  | Some m => Some m
  | None =>
      match s with
      | [] => None
      | _ :: s' => search_from r (S pos) s'
      end
  end.

(** [re.search(r, s)]: the leftmost match. *)
Definition re_search (r : regex) (s : text) : option Match := search_from r 0 s.

(** [re.sub(r, repl, s)] for a pattern whose matches are never empty and a
    replacement without group references (the call site removes a diagnosis
    pattern, which starts with a literal).  [skip] counts the characters of
    the current match still to drop. *)
Fixpoint sub_from (r : regex) (repl : text) (skip pos : nat) (s : text) : text :=
  match s with
  | [] => []
  | x :: s' =>
      match skip with
      | S k => sub_from r repl k (S pos) s'
      | O =>
          match match_at r pos s with
          | Some m =>
              match m_end m - m_start m with
              | S k => repl ++ sub_from r repl k (S pos) s'
              | O => x :: sub_from r repl 0 (S pos) s'
              end
          | None => x :: sub_from r repl 0 (S pos) s'
          end
      end
  end.

Definition re_sub (r : regex) (repl s : text) : text := sub_from r repl 0 0 s.

(** [re.split(r, s)] for a pattern that only matches the empty string (the
    call site splits on a lookahead): the text is cut at every position
    where the pattern matches, a match at position 0 giving an empty first
    piece. *)
Fixpoint split_from (r : regex) (pos : nat) (s : text) : list text :=
  let pieces :=
    match s with
    | [] => [[]]
    | x :: s' =>
        match split_from r (S pos) s' with
        | p :: ps => (x :: p) :: ps
        | [] => [[x]]
        end
    end in
  match match_at r pos s with
  | Some _ => [] :: pieces
  | None => pieces
  end.

Definition re_split (r : regex) (s : text) : list text := split_from r 0 s.

(** *** Writing patterns *)

Inductive flags := NOFLAG | IGNORECASE.

(** A literal character: under IGNORECASE two characters below 256 match
    when their lowercase forms agree. *)
Definition lit (f : flags) (ch : ascii) : regex :=
  match f with
  | NOFLAG => Cls (ascii_eqb ch)
  | IGNORECASE => Cls (fun x => ascii_eqb (lower_char x) (lower_char ch))
  end.

Fixpoint lits (f : flags) (s : text) : regex :=
  match s with
  | [] => Eps
  | [ch] => lit f ch
  | ch :: s' => Cat (lit f ch) (lits f s')
  end.

Definition str (f : flags) (s : string) : regex := lits f (txt s).

Fixpoint cat (rs : list regex) : regex :=
  match rs with
  | [] => Eps
  | [r] => r
  | r :: rs' => Cat r (cat rs')
  end.

Definition Plus (p : ascii -> bool) : regex := Cat (Cls p) (Star p).

(** [.] and [[^\n]]: any character but the newline. *)
Definition not_newline (c : ascii) : bool := negb (ascii_eqb c newline).

(** [[A-Z]] *)
Definition upper_AZ (c : ascii) : bool := in_range 65 90 c.

(* ================================================================= *)
(** ** Data model shared by the two files *)

(** The dictionary built by [parse_case]: always these five keys. *)
Record CaseRecord := mkCase {
  specialty : text;
  presenting_complaint : text;
  case_details : text;
  diagnosis : text;
  case_number : text
}.

Inductive exn_kind :=
| ValueError | IndexError | TypeError | AttributeError
| FileNotFoundError | OSError | ServiceError.

(** An exception: its class and [str(e)]. *)
Record exn := Exn { kind : exn_kind; str_of : text }.

Inductive result (A : Type) : Type :=
| Return : A -> result A
| Raise : exn -> result A.
Arguments Return {A} _.
Arguments Raise {A} _.

(** [open(filename, 'r', encoding='latin1').read()]: the content, or the
    exception of [open]. *)
Definition filesystem := text -> result text.

(** One turn of the transcript, [{"role": ..., "content": ...}]. *)
Record Message := mkMessage { role : text; content : text }.

(** The arguments of [client.chat.completions.create]. *)
Record Request := mkRequest {
  model : text;
  messages : list Message;
  max_tokens : nat;
  temperature : Q
}.

(** The external service: for a request, the text of
    [response.choices[0].message.content], or the exception raised. *)
Definition client := Request -> result text.

(** The instance attributes of [VirtualPatient] that change. *)
Record VirtualPatient := mkVP {
  conversation_history : list Message;
  all_cases : list CaseRecord;
  current_case : option CaseRecord;
  diagnosis_made : bool;
  diagnosis_correct : bool
}.

(** [VirtualPatient.__init__] *)
Definition init : VirtualPatient := mkVP [] [] None false false.

(** [system_prompt_template], cut at its one placeholder
    [{presenting_complaint}]. *)
Definition system_prompt_head : text :=
  txt "You are simulating a patient case for medical training. Respond as the patient would, with appropriate emotions and lay terminology. Important rules:

1. Never reveal the diagnosis or medical details that the patient wouldn't know
2. Only provide information when specifically asked
3. Use natural, patient-like language (avoid medical terminology unless the patient would know it)
4. Maintain consistency with previous answers
5. Show appropriate emotions and concerns
6. If asked about a symptom or history not mentioned in the case, respond with "
  ++ [dquote] ++ txt "I don't think so" ++ [dquote] ++ txt " or "
  ++ [dquote] ++ txt "No" ++ [dquote] ++ txt "

Current presenting complaint: ".

Definition system_prompt_tail : text :=
  txt "

Remember: You are the patient. Respond naturally to the doctor's questions. Never reveal the diagnosis or medical details that a real patient wouldn't know.".

(** [system_prompt_template.format(presenting_complaint=pc)] *)
Definition format_system_prompt (pc : text) : text :=
  system_prompt_head ++ pc ++ system_prompt_tail.

(** The score dictionary of [get_score]. *)
Record Score := mkScore { score : nat; feedback : text }.

(* ================================================================= *)
(** ** [difflib.SequenceMatcher(None, a, b).ratio()]

    The matcher is built with [isjunk=None] and [autojunk=True].  Indices
    are natural numbers; [a[i]] is [nth i a zero] (every index the
    algorithm reads is in range). *)

Module difflib.

Definition elt_at (i : nat) (s : text) : ascii := nth i s Ascii.zero.

(** [b2j]: for each element of [b] the list of its indices, increasing. *)
Definition b2j_t := list (ascii * list nat).

(** [b2j.get(elt, [])] *)
Fixpoint b2j_get (b2j : b2j_t) (elt : ascii) : list nat :=
  match b2j with
  | [] => []
  | (e, idxs) :: rest => if ascii_eqb e elt then idxs else b2j_get rest elt
  end.

(** [b2j.setdefault(elt, []).append(i)] *)
Fixpoint b2j_append (b2j : b2j_t) (elt : ascii) (i : nat) : b2j_t :=
  match b2j with
  | [] => [(elt, [i])]
  | (e, idxs) :: rest =>
      if ascii_eqb e elt then (e, idxs ++ [i]) :: rest
      else (e, idxs) :: b2j_append rest elt i
  end.

(** [for i, elt in enumerate(b)], from index [i] on. *)
Fixpoint chain_loop (b2j : b2j_t) (i : nat) (b : text) : b2j_t :=
  match b with
  | [] => b2j
  | elt :: b' => chain_loop (b2j_append b2j elt i) (S i) b'
  end.

(** [__chain_b]: with [isjunk=None] nothing is junk; when [b] has 200
    elements or more, the elements occurring more than [n // 100 + 1] times
    are popular and their entries are deleted. *)
Definition chain_b (b : text) : b2j_t :=
  let b2j := chain_loop [] 0 b in
  let n := len b in
  if 200 <=? n then
    let ntest := n / 100 + 1 in
    filter (fun entry => negb (ntest <? List.length (snd entry))) b2j
  else b2j.

(** [bjunk.__contains__]: [bjunk] is the empty set. *)
Definition isbjunk (_ : ascii) : bool := false.

Definition j2len_t := list (nat * nat).

(** [j2len.get(j, 0)] *)
Fixpoint j2len_get (j2len : j2len_t) (j : nat) : nat :=
  match j2len with
  | [] => 0
  | (j', k) :: rest => if j' =? j then k else j2len_get rest j
  end.

(** [j2len.get(j-1, 0)]: for [j = 0] the key is -1, which no dictionary
    holds. *)
Definition j2len_get_pred (j2len : j2len_t) (j : nat) : nat :=
  match j with
  | O => 0
  | S j' => j2len_get j2len j'
  end.

Definition block := (nat * nat * nat)%type.

(** The body of [for j in b2j.get(a[i], nothing)].  [i-k+1] is written
    [i + 1 - k]: a match ending at [a[i]] has at most [i + 1] elements. *)
Fixpoint inner_loop (js : list nat) (i blo bhi : nat) (j2len newj2len : j2len_t)
    (best : block) : j2len_t * block :=
  match js with
  | [] => (newj2len, best)
  | j :: js' =>
      if j <? blo then inner_loop js' i blo bhi j2len newj2len best
      else if bhi <=? j then (newj2len, best)
      else
        let k := j2len_get_pred j2len j + 1 in
        let newj2len' := (j, k) :: newj2len in
        let '(_, _, bestsize) := best in
        let best' := if bestsize <? k then (i + 1 - k, j + 1 - k, k) else best in
        inner_loop js' i blo bhi j2len newj2len' best'
  end.

(** One round of [for i in range(alo, ahi)]. *)
Definition outer_step (a : text) (b2j : b2j_t) (blo bhi : nat)
    (st : j2len_t * block) (i : nat) : j2len_t * block :=
  inner_loop (b2j_get b2j (elt_at i a)) i blo bhi (fst st) [] (snd st).

Definition outer_loop (a : text) (b2j : b2j_t) (alo ahi blo bhi : nat) : j2len_t * block :=
  fold_left (outer_step a b2j blo bhi) (seq alo (ahi - alo)) ([], (alo, blo, 0)).

(** [while besti > alo and bestj > blo and ok(b[bestj-1]) and
    a[besti-1] == b[bestj-1]]: one step to the left each round. *)
Fixpoint extend_left (ok : ascii -> bool) (a b : text) (alo blo : nat)
    (besti bestj bestsize : nat) {struct besti} : block :=
  match besti, bestj with
  | S i', S j' =>
      if (alo <? besti) && (blo <? bestj) && ok (elt_at j' b)
         && ascii_eqb (elt_at i' a) (elt_at j' b)
      then extend_left ok a b alo blo i' j' (bestsize + 1)
      else (besti, bestj, bestsize)
  | _, _ => (besti, bestj, bestsize)
  end.

(** [while besti+bestsize < ahi and bestj+bestsize < bhi and
    ok(b[bestj+bestsize]) and a[besti+bestsize] == b[bestj+bestsize]]:
    [rounds] bounds the number of rounds; [ahi - (besti + bestsize)] is
    enough, since every round adds one to [bestsize]. *)
Fixpoint extend_right (ok : ascii -> bool) (a b : text) (ahi bhi : nat)
    (besti bestj : nat) (rounds bestsize : nat) {struct rounds} : nat :=
  match rounds with
  | O => bestsize
  | S rounds' =>
      if (besti + bestsize <? ahi) && (bestj + bestsize <? bhi)
         && ok (elt_at (bestj + bestsize) b)
         && ascii_eqb (elt_at (besti + bestsize) a) (elt_at (bestj + bestsize) b)
      then extend_right ok a b ahi bhi besti bestj rounds' (bestsize + 1)
      else bestsize
  end.

Definition extend (ok : ascii -> bool) (a b : text) (alo ahi blo bhi : nat)
    (best : block) : block :=
  let '(besti, bestj, bestsize) := best in
  let '(besti, bestj, bestsize) := extend_left ok a b alo blo besti bestj bestsize in
  (besti, bestj,
   extend_right ok a b ahi bhi besti bestj (ahi - (besti + bestsize)) bestsize).

(** [find_longest_match(alo, ahi, blo, bhi)] *)
Definition find_longest_match (a b : text) (b2j : b2j_t) (alo ahi blo bhi : nat) : block :=
  let best := snd (outer_loop a b2j alo ahi blo bhi) in
  let best := extend (fun x => negb (isbjunk x)) a b alo ahi blo bhi best in
  extend isbjunk a b alo ahi blo bhi best.

Definition range4 := (nat * nat * nat * nat)%type.

(** [while queue:].  The list holds the stack with its top first
    ([queue.pop()] takes the head, [queue.append] conses).  [rounds] bounds
    the number of rounds; [None] when it is used up. *)
Fixpoint queue_loop (a b : text) (b2j : b2j_t) (rounds : nat)
    (queue : list range4) (matching_blocks : list block) : option (list block) :=
  match queue with
  | [] => Some matching_blocks
  | (alo, ahi, blo, bhi) :: queue' =>
      match rounds with
      | O => None
      | S rounds' =>
          let '(i, j, k) := find_longest_match a b b2j alo ahi blo bhi in
          if k =? 0 then queue_loop a b b2j rounds' queue' matching_blocks
          else
            let q1 := if (alo <? i) && (blo <? j)
                      then (alo, i, blo, j) :: queue' else queue' in
            let q2 := if (i + k <? ahi) && (j + k <? bhi)
                      then (i + k, ahi, j + k, bhi) :: q1 else q1 in
            queue_loop a b b2j rounds' q2 (matching_blocks ++ [(i, j, k)])
      end
  end.

(** Tuple comparison [x <= y]. *)
Definition block_leb (x y : block) : bool :=
  let '(i1, j1, k1) := x in
  let '(i2, j2, k2) := y in
  (i1 <? i2) || ((i1 =? i2) && ((j1 <? j2) || ((j1 =? j2) && (k1 <=? k2)))).

Fixpoint insert_block (x : block) (l : list block) : list block :=
  match l with
  | [] => [x]
  | y :: l' => if block_leb x y then x :: l else y :: insert_block x l'
  end.

(** [matching_blocks.sort()] *)
Definition sort_blocks (l : list block) : list block :=
  fold_right insert_block [] l.

(** The loop that collapses adjacent blocks; the state is
    [(i1, j1, k1, non_adjacent)]. *)
Definition collapse_step (st : block * list block) (x : block) : block * list block :=
  let '((i1, j1, k1), non_adjacent) := st in
  let '(i2, j2, k2) := x in
  if (i1 + k1 =? i2) && (j1 + k1 =? j2)
  then ((i1, j1, k1 + k2), non_adjacent)
  else ((i2, j2, k2),
        if k1 =? 0 then non_adjacent else non_adjacent ++ [(i1, j1, k1)]).

Definition collapse (la lb : nat) (matching_blocks : list block) : list block :=
  let '((i1, j1, k1), non_adjacent) :=
    fold_left collapse_step matching_blocks ((0, 0, 0), []) in
  let non_adjacent :=
    if k1 =? 0 then non_adjacent else non_adjacent ++ [(i1, j1, k1)] in
  non_adjacent ++ [(la, lb, 0)].

(** [get_matching_blocks()].  The queue loop ends within
    [2 * len(a) + 1] rounds ([queue_loop_ends] below). *)
Definition get_matching_blocks (a b : text) : option (list block) :=
  let la := len a in
  let lb := len b in
  match queue_loop a b (chain_b b) (2 * la + 1) [(0, la, 0, lb)] [] with
  | Some matching_blocks => Some (collapse la lb (sort_blocks matching_blocks))
  | None => None
  end.

(** [_calculate_ratio(matches, length)], as an exact rational. *)
Definition calculate_ratio (matches length : nat) : Q :=
  match length with
  | O => 1
  | S _ => Z.of_nat (2 * matches) # Pos.of_nat length
  end.

Definition sum_sizes (l : list block) : nat :=
  fold_right (fun x acc => snd x + acc) 0 l.

(** [ratio()], [None] when the queue loop was cut short. *)
Definition ratio_opt (a b : text) : option Q :=
  match get_matching_blocks a b with
  | Some blocks => Some (calculate_ratio (sum_sizes blocks) (len a + len b))
  | None => None
  end.

(** [ratio()].  The second branch is never taken ([ratio_opt_defined]). *)
Definition ratio (a b : text) : Q :=
  match ratio_opt a b with
  | Some r => r
  | None => 0
  end.

End difflib.

(** [similarity > 0.8].  [similarity] is the exact quotient [2M/T]; the
    float quotient is its correctly rounded value and [0.8] the double
    nearest to 4/5, so the two comparisons agree for every text shorter
    than 2^50 characters. *)
Definition above_threshold (similarity : Q) : bool :=
  negb (Qle_bool similarity (8 # 10)).

(** The keywords of [interact] and the phrases of [check_diagnosis]. *)
Definition diagnosis_keywords : list text :=
  [txt "my diagnosis is"; txt "i think this is"; txt "this could be"; txt "you have"].

Definition diagnosis_phrases : list text :=
  [txt "my diagnosis is"; txt "i think this is"; txt "this could be"; txt "you have";
   txt "this is"].

(** [for phrase in [...]: diagnosis_text = diagnosis_text.replace(phrase, '').strip()]
    starting from [doctor_message.lower()]. *)
Definition extract_diagnosis_text (doctor_message : text) : text :=
  fold_left (fun diagnosis_text phrase => strip (replace phrase [] diagnosis_text))
            diagnosis_phrases (lower doctor_message).

Definition correct_feedback (d : text) : text :=
  txt "Correct! The diagnosis is " ++ d ++
  txt ". Would you like to discuss the case or move to the next one?".

Definition incorrect_feedback (d : text) : text :=
  txt "That's not quite right. The actual diagnosis is " ++ d ++
  txt ". Let's review the key points of the case. What made this diagnosis challenging?".

Definition no_case_loaded : text := txt "No case loaded. Please load a case first.".

(** [get_score], the same in both files. *)
Definition get_score (self : VirtualPatient) : Score :=
  if negb (diagnosis_made self) then mkScore 0 (txt "No diagnosis attempted yet.")
  else mkScore (if diagnosis_correct self then 1 else 0)
               (if diagnosis_correct self then txt "Correct diagnosis!"
                else txt "Incorrect diagnosis. Review the case details.").

(** The request of [interact]: the system prompt, then the transcript. *)
Definition build_request (pc details : text) (history : list Message) : Request :=
  let system_prompt := format_system_prompt pc in
  let system_prompt := system_prompt
    ++ [newline; newline] ++ txt "Case Details (for accurate responses but never reveal):"
    ++ [newline] ++ details in
  mkRequest (txt "gpt-4o-mini")
            (mkMessage (txt "system") system_prompt :: history)
            200 (7 # 10).

(* ================================================================= *)
(** ** [virtual_patient.py] *)

Module virtual_patient.

Module CaseLoader.

(** [r'Case (\d+):\s*(.+)'] *)
Definition title_pattern : regex :=
  cat [str NOFLAG "Case "; Grp 1 (Plus isdecimal); str NOFLAG ":"; Star isspace;
       Grp 2 (Plus not_newline)].

(** [diagnosis_patterns], compiled with [re.IGNORECASE]:
    [r'Diagnosis:?\s*([^\n]+)'], [r'The diagnosis is:?\s*([^\n]+)'],
    [r'This (patient|case) demonstrates:?\s*([^\n]+)']. *)
Definition diagnosis_patterns : list regex :=
  [ cat [str IGNORECASE "Diagnosis"; Opt (str IGNORECASE ":"); Star isspace;
         Grp 1 (Plus not_newline)];
    cat [str IGNORECASE "The diagnosis is"; Opt (str IGNORECASE ":"); Star isspace;
         Grp 1 (Plus not_newline)];
    cat [str IGNORECASE "This ";
         Grp 1 (Alt (str IGNORECASE "patient") (str IGNORECASE "case"));
         str IGNORECASE " demonstrates"; Opt (str IGNORECASE ":"); Star isspace;
         Grp 2 (Plus not_newline)] ].

(** [for pattern in diagnosis_patterns: ... break]: the diagnosis and the
    case text left. *)
Fixpoint find_diagnosis (patterns : list regex) (case_text : text) : text * text :=
  match patterns with
  | [] => ([], case_text)
  | pattern :: rest =>
      match re_search pattern case_text with
      | Some m => (strip (group 1 m), re_sub pattern [] case_text)
      | None => find_diagnosis rest case_text
      end
  end.

Definition parse_case (case_text : text) : result CaseRecord :=
  let lines := split_char newline case_text in
  let line0 := nth 0 lines [] in
  let header :=
    if startswith (txt "Specialty:") line0
    then match nth_error lines 1 with
         | Some line1 => Return (strip (replace (txt "Specialty:") [] line0), line1)
         | None => Raise (Exn IndexError (txt "list index out of range"))
         end
    else Return ([], line0) in
  match header with
  | Raise e => Raise e
  | Return (specialty, title_line) =>
      let '(case_number, presenting_complaint) :=
        match re_match title_pattern title_line with
        | Some case_match => (group 1 case_match, group 2 case_match)
        | None => ([], [])
        end in
      let case_text := join [newline] lines in
      let '(diagnosis, case_text) := find_diagnosis diagnosis_patterns case_text in
      Return (mkCase specialty presenting_complaint (strip case_text) diagnosis case_number)
  end.

(** [r'(?=Case\s+\d+:)'] *)
Definition split_pattern : regex :=
  Ahead (cat [str NOFLAG "Case"; Plus isspace; Plus isdecimal; str NOFLAG ":"]).

(** [for case in cases:] *)
Fixpoint load_loop (cases : list text) (processed_cases : list CaseRecord)
    (current_specialty : text) : result (list CaseRecord) :=
  match cases with
  | [] => Return processed_cases
  | case :: rest =>
      let case := strip case in
      match case with
      | [] => load_loop rest processed_cases current_specialty
      | _ :: _ =>
          if isupper case && (len case <? 50)
          then load_loop rest processed_cases case
          else if startswith (txt "Case") case
          then
            let full_case := txt "Specialty: " ++ current_specialty ++ [newline] ++ case in
            match parse_case full_case with
            | Raise e => Raise e
            | Return case_data =>
                match case_details case_data with
                | [] => load_loop rest processed_cases current_specialty
                | _ :: _ => load_loop rest (processed_cases ++ [case_data]) current_specialty
                end
            end
          else load_loop rest processed_cases current_specialty
      end
  end.

(** Every exception in the [try] block becomes a [ValueError]. *)
Definition load_cases_from_file (fs : filesystem) (filename : text)
    : result (list CaseRecord) :=
  let wrap (e : exn) :=
    Raise (Exn ValueError (txt "Error loading cases: " ++ str_of e)) in
  match fs filename with
  | Raise e => wrap e
  | Return content =>
      let cases := re_split split_pattern content in
      match load_loop cases [] (txt "Unknown") with
      | Return processed_cases => Return processed_cases
      | Raise e => wrap e
      end
  end.

End CaseLoader.

Module VirtualPatient.

Definition set_case (self : VirtualPatient) (case : CaseRecord) : VirtualPatient :=
  mkVP [] (all_cases self) (Some case) false false.

(** The exception of the loader propagates; [all_cases] is then not
    assigned. *)
Definition load_cases_from_file (fs : filesystem) (self : VirtualPatient)
    (filename : text) : result unit * VirtualPatient :=
  match CaseLoader.load_cases_from_file fs filename with
  | Raise e => (Raise e, self)
  | Return cases =>
      let self := mkVP (conversation_history self) cases (current_case self)
                       (diagnosis_made self) (diagnosis_correct self) in
      match cases with
      | first :: _ => (Return tt, set_case self first)
      | [] => (Return tt, self)
      end
  end.

(** With no current case, [self.current_case['diagnosis']] raises after
    [diagnosis_made] is set. *)
Definition check_diagnosis (self : VirtualPatient) (doctor_message : text)
    : result text * VirtualPatient :=
  let self := mkVP (conversation_history self) (all_cases self) (current_case self)
                   true (diagnosis_correct self) in
  let diagnosis_text := extract_diagnosis_text doctor_message in
  match current_case self with
  | None => (Raise (Exn TypeError (txt "'NoneType' object is not subscriptable")), self)
  | Some case =>
      let actual_diagnosis := lower (diagnosis case) in
      let similarity := difflib.ratio diagnosis_text actual_diagnosis in
      let self := mkVP (conversation_history self) (all_cases self) (current_case self)
                       (diagnosis_made self) (above_threshold similarity) in
      if diagnosis_correct self
      then (Return (correct_feedback (diagnosis case)), self)
      else (Return (incorrect_feedback (diagnosis case)), self)
  end.

(** [interact]: the reply or the exception, the new state, and the requests
    sent to the external service during the call. *)
Definition interact (cl : client) (self : VirtualPatient) (doctor_message : text)
    : result text * VirtualPatient * list Request :=
  match current_case self with
  | None => (Return no_case_loaded, self, [])
  | Some case =>
      if existsb (fun keyword => contains keyword (lower doctor_message)) diagnosis_keywords
      then (check_diagnosis self doctor_message, [])
      else
        let self := mkVP (conversation_history self ++ [mkMessage (txt "user") doctor_message])
                         (all_cases self) (current_case self)
                         (diagnosis_made self) (diagnosis_correct self) in
        let request := build_request (presenting_complaint case) (case_details case)
                                     (conversation_history self) in
        match cl request with
        | Raise e => (Raise e, self, [request])
        | Return patient_response =>
            let self := mkVP (conversation_history self
                                ++ [mkMessage (txt "assistant") patient_response])
                             (all_cases self) (current_case self)
                             (diagnosis_made self) (diagnosis_correct self) in
            (Return patient_response, self, [request])
        end
  end.

End VirtualPatient.

End virtual_patient.

(* ================================================================= *)
(** ** [virtual_patient_2(1).py] *)

Module virtual_patient_2.

Module CaseLoader.

(** [r'^([A-Z]+)'] *)
Definition specialty_pattern : regex := cat [Bos; Grp 1 (Plus upper_AZ)].

(** [r'CASE\s*(\d+):\s*(.+)'] with [re.IGNORECASE] *)
Definition case_pattern : regex :=
  cat [str IGNORECASE "CASE"; Star isspace; Grp 1 (Plus isdecimal); str IGNORECASE ":";
       Star isspace; Grp 2 (Plus not_newline)].

(** [[is]] under [re.IGNORECASE] *)
Definition class_is (c : ascii) : bool :=
  ascii_eqb (lower_char c) "i"%char || ascii_eqb (lower_char c) "s"%char.

(** [diagnosis_patterns] with [re.IGNORECASE]: [r'Diagnosis:\s*(.+)'],
    [r'The diagnosis is:\s*(.+)'], [r'diagnosis\s*[is]?\s*(.+)']. *)
Definition diagnosis_patterns : list regex :=
  [ cat [str IGNORECASE "Diagnosis:"; Star isspace; Grp 1 (Plus not_newline)];
    cat [str IGNORECASE "The diagnosis is:"; Star isspace; Grp 1 (Plus not_newline)];
    cat [str IGNORECASE "diagnosis"; Star isspace; Opt (Cls class_is); Star isspace;
         Grp 1 (Plus not_newline)] ].

Fixpoint find_diagnosis (patterns : list regex) (case_text : text) : text :=
  match patterns with
  | [] => []
  | pattern :: rest =>
      match re_search pattern case_text with
      | Some diagnosis_match => strip (group 1 diagnosis_match)
      | None => find_diagnosis rest case_text
      end
  end.

Definition parse_case (case_text : text) : CaseRecord :=
  let case_text := strip case_text in
  let specialty :=
    match re_search specialty_pattern case_text with
    | Some specialty_match => group 1 specialty_match
    | None => []
    end in
  let case_match := re_search case_pattern case_text in
  let case_number :=
    match case_match with Some m => group 1 m | None => [] end in
  let presenting_complaint :=
    match case_match with Some m => group 2 m | None => [] end in
  let diagnosis := find_diagnosis diagnosis_patterns case_text in
  mkCase specialty presenting_complaint case_text diagnosis case_number.

(** [for section in case_sections:].  The dictionary of [parse_case] has
    five keys, so [if case:] holds. *)
Fixpoint load_loop (case_sections : list text) (processed_cases : list CaseRecord)
    : list CaseRecord :=
  match case_sections with
  | [] => processed_cases
  | section :: rest =>
      match strip section with
      | [] => load_loop rest processed_cases
      | _ :: _ => load_loop rest (processed_cases ++ [parse_case section])
      end
  end.

(** A [FileNotFoundError] of [open] and any other exception of the [try]
    block, the [ValueError] raised in it included, become a [ValueError]. *)
Definition load_cases_from_file (fs : filesystem) (filename : text)
    : result (list CaseRecord) :=
  let wrap (e : exn) :=
    match kind e with
    | FileNotFoundError => Raise (Exn ValueError (txt "File not found: " ++ filename))
    | _ => Raise (Exn ValueError (txt "Error loading cases: " ++ str_of e))
    end in
  match fs filename with
  | Raise e => wrap e
  | Return content =>
      let case_sections := split_char "@"%char content in
      match load_loop case_sections [] with
      | [] => wrap (Exn ValueError (txt "No cases could be parsed from the file"))
      | c :: cs => Return (c :: cs)
      end
  end.

End CaseLoader.

Module VirtualPatient.

Definition set_case (self : VirtualPatient) (case : CaseRecord) : VirtualPatient :=
  mkVP [] (all_cases self) (Some case) false false.

(** Every exception is caught and printed; the state is then unchanged. *)
Definition load_cases_from_file (fs : filesystem) (self : VirtualPatient)
    (filename : text) : VirtualPatient :=
  match CaseLoader.load_cases_from_file fs filename with
  | Raise _ => self
  | Return cases =>
      let self := mkVP (conversation_history self) cases (current_case self)
                       (diagnosis_made self) (diagnosis_correct self) in
      match cases with
      | first :: _ => set_case self first
      | [] => self
      end
  end.

(** With no current case, [self.current_case.get] raises after
    [diagnosis_made] is set. *)
Definition check_diagnosis (self : VirtualPatient) (doctor_message : text)
    : result text * VirtualPatient :=
  let self := mkVP (conversation_history self) (all_cases self) (current_case self)
                   true (diagnosis_correct self) in
  let diagnosis_text := extract_diagnosis_text doctor_message in
  match current_case self with
  | None => (Raise (Exn AttributeError (txt "'NoneType' object has no attribute 'get'")),
             self)
  | Some case =>
      let actual_diagnosis := lower (diagnosis case) in
      let similarity := difflib.ratio diagnosis_text actual_diagnosis in
      let self := mkVP (conversation_history self) (all_cases self) (current_case self)
                       (diagnosis_made self) (above_threshold similarity) in
      if diagnosis_correct self
      then (Return (correct_feedback (diagnosis case)), self)
      else (Return (incorrect_feedback (diagnosis case)), self)
  end.

(** [interact]: as in the first file, but the call of the external service
    is inside [try: ... except Exception as e:]. *)
Definition interact (cl : client) (self : VirtualPatient) (doctor_message : text)
    : result text * VirtualPatient * list Request :=
  match current_case self with
  | None => (Return no_case_loaded, self, [])
  | Some case =>
      if existsb (fun keyword => contains keyword (lower doctor_message)) diagnosis_keywords
      then (check_diagnosis self doctor_message, [])
      else
        let self := mkVP (conversation_history self ++ [mkMessage (txt "user") doctor_message])
                         (all_cases self) (current_case self)
                         (diagnosis_made self) (diagnosis_correct self) in
        let request := build_request (presenting_complaint case) (case_details case)
                                     (conversation_history self) in
        match cl request with
        | Raise e =>
            (Return (txt "Error generating response: " ++ str_of e), self, [request])
        | Return patient_response =>
            let self := mkVP (conversation_history self
                                ++ [mkMessage (txt "assistant") patient_response])
                             (all_cases self) (current_case self)
                             (diagnosis_made self) (diagnosis_correct self) in
            (Return patient_response, self, [request])
        end
  end.

End VirtualPatient.

End virtual_patient_2.

(* ================================================================= *)
(** ** Calls on a session, for the statements about sequences of calls *)

(** One call of the presentation layer on the first file's
    [VirtualPatient]; [Interact] carries the behaviour of the external
    service during that call. *)
Inductive call :=
| Interact (cl : client) (doctor_message : text)
| CheckDiagnosis (doctor_message : text)
| GetScore.

Definition step (self : VirtualPatient) (c : call) : VirtualPatient :=
  match c with
  | Interact cl m => snd (fst (virtual_patient.VirtualPatient.interact cl self m))
  | CheckDiagnosis m => snd (virtual_patient.VirtualPatient.check_diagnosis self m)
  | GetScore => self
  end.

Definition run (self : VirtualPatient) (calls : list call) : VirtualPatient :=
  fold_left step calls self.

(** [m] holds [keyword] as a substring up to case. *)
Definition contains_ignoring_case (keyword m : text) : Prop :=
  exists before middle after,
    m = before ++ middle ++ after /\ lower middle = keyword.

(** No character occurs in both texts. *)
Definition no_common_char (a b : text) : Prop :=
  forall c, In c a -> ~ In c b.

(** A session with an active case, used to instantiate the statements. *)
Definition sample_case : CaseRecord :=
  mkCase (txt "Unknown") (txt "sore throat")
         (txt "Specialty: Unknown
Case 1: sore throat
Hx: 3 days")
         (txt "strep throat") (txt "1").

Definition sample_session : VirtualPatient :=
  mkVP [mkMessage (txt "user") (txt "Does it hurt?");
        mkMessage (txt "assistant") (txt "Yes, when I swallow.")]
       [sample_case] (Some sample_case) true true.

Definition failing_client : client :=
  fun _ => Raise (Exn ServiceError (txt "Connection error.")).

Definition echo_client : client :=
  fun _ => Return (txt "It started three days ago.").

(* ================================================================= *)
(** ** [web_gui.py] *)

Module web_gui.

(** [respond(message, history)]: the chat widget's history is not used. *)
Definition respond (cl : client) (patient : VirtualPatient) (message : text)
    (history : list (text * text)) : result text * VirtualPatient * list Request :=
  virtual_patient.VirtualPatient.interact cl patient message.

(** [next_case()].  [patient.all_cases[0]] raises on an empty list. *)
Definition next_case (patient : VirtualPatient) : result text * VirtualPatient :=
  if 1 <? List.length (all_cases patient)
  then
    let patient := mkVP (conversation_history patient) (skipn 1 (all_cases patient))
                        (current_case patient) (diagnosis_made patient)
                        (diagnosis_correct patient) in
    match all_cases patient with
    | first :: _ =>
        (Return (txt "New case started. How can I help you today?"),
         virtual_patient.VirtualPatient.set_case patient first)
    | [] => (Raise (Exn IndexError (txt "list index out of range")), patient)
    end
  else (Return (txt "No more cases available"), patient).

End web_gui.

(* ================================================================= *)
(** ** Events of the chat front end *)

(** One event of the web front end: a chat message (with the behaviour of
    the external service during the call) or a press on "Next Case". *)
Inductive gui_event :=
| Respond (cl : client) (message : text)
| NextCase.

Definition gui_step (patient : VirtualPatient) (e : gui_event) : VirtualPatient :=
  match e with
  | Respond cl m => snd (fst (web_gui.respond cl patient m []))
  | NextCase => snd (web_gui.next_case patient)
  end.

Definition gui_run (patient : VirtualPatient) (events : list gui_event) : VirtualPatient :=
  fold_left gui_step events patient.

(** [s[:n]] for the longest [n] such that every character satisfies [p]. *)
Fixpoint take_while (p : ascii -> bool) (s : text) : text :=
  match s with
  | c :: s' => if p c then c :: take_while p s' else []
  | [] => []
  end.

(** The message holds none of the keywords of [interact], whatever the
    case of its letters. *)
Definition keyword_free (m : text) : Prop :=
  forall keyword, In keyword diagnosis_keywords -> ~ contains_ignoring_case keyword m.

(** A text without whitespace at either end. *)
Definition stripped (s : text) : Prop := strip s = s.

(** The sections of a format-B file that are not blank. *)
Definition nonblank_sections (content : text) : list text :=
  filter (fun section => match strip section with [] => false | _ :: _ => true end)
         (split_char "@"%char content).

(** What every record of the first file's loader satisfies. *)
Definition well_loaded (r : CaseRecord) : Prop :=
  case_details r <> [] /\ stripped (case_details r) /\ stripped (diagnosis r).

Definition is_next_case (e : gui_event) : bool :=
  match e with
  | NextCase => true
  | Respond _ _ => false
  end.

(** The number of presses on "Next Case" among the events. *)
Definition presses (events : list gui_event) : nat :=
  List.length (filter is_next_case events).

(** One character of a literal against one character of the text, under
    the flags. *)
Definition char_match (f : flags) (ch x : ascii) : bool :=
  match f with
  | NOFLAG => ascii_eqb ch x
  | IGNORECASE => ascii_eqb (lower_char x) (lower_char ch)
  end.

(** The text starts with the literal, under the flags. *)
Fixpoint starts_lit (f : flags) (literal s : text) : bool :=
  match literal, s with
  | [], _ => true
  | _ :: _, [] => false
  | ch :: literal', x :: s' => char_match f ch x && starts_lit f literal' s'
  end.

(** The word does not start, under IGNORECASE, at any position of [s]
    in the text [s ++ rest]. *)
Fixpoint word_absent (word s rest : text) : bool :=
  match s with
  | [] => true
  | _ :: s' => negb (starts_lit IGNORECASE word (s ++ rest)) && word_absent word s' rest
  end.

(** The text handed to the first file's [parse_case] up to the diagnosis
    line: the specialty line, the title line and the body. *)
Definition block_head (sp num pc body : text) : text :=
  txt "Specialty: " ++ sp ++ [newline]
  ++ txt "Case " ++ num ++ txt ": " ++ pc ++ [newline] ++ body.

(** The pattern has no [^]. *)
Fixpoint bos_free (r : regex) : bool :=
  match r with
  | Bos => false
  | Eps | Cls _ | Star _ => true
  | Cat r1 r2 | Alt r1 r2 => bos_free r1 && bos_free r2
  | Opt r1 | Grp _ r1 | Ahead r1 => bos_free r1
  end.

Definition is_some {A : Type} (o : option A) : bool :=
  match o with
  | Some _ => true
  | None => false
  end.

(** The split pattern of the first file matches at the start of [s]. *)
Definition heading_here (s : text) : bool :=
  is_some (match_at virtual_patient.CaseLoader.split_pattern 0 s).

(** No heading starts inside [s] (after its first character) in the text
    [s ++ rest]. *)
Fixpoint no_heading_after (s rest : text) : bool :=
  match s with
  | [] => true
  | _ :: s' =>
      match s' with
      | [] => true
      | _ :: _ => negb (heading_here (s' ++ rest)) && no_heading_after s' rest
      end
  end.

(** One block of a format-A file: "Case <num>: <pc>", a newline, a body,
    the word "diagnosis" in some letter case, ": ", the diagnosis text,
    and the whitespace up to the next block. *)
Record Block := mkBlock {
  b_num : text;
  b_pc : text;
  b_body : text;
  b_word : text;
  b_diag : text;
  b_sep : text
}.

Definition block_core (b : Block) : text :=
  txt "Case " ++ b_num b ++ txt ": " ++ b_pc b ++ [newline] ++ b_body b
  ++ b_word b ++ txt ": " ++ b_diag b.

Definition block_text (b : Block) : text := block_core b ++ b_sep b.

Definition file_text (blocks : list Block) : text :=
  List.concat (map block_text blocks).

(** The block is well formed: digits, a complaint and a diagnosis text
    that stay on their line and have no whitespace at the ends that
    matter, whitespace after the block, and the word "diagnosis" nowhere
    before the diagnosis line. *)
Definition block_ok (b : Block) : Prop :=
  b_num b <> [] /\ forallb isdecimal (b_num b) = true
  /\ match b_pc b with [] => False | y :: _ => isspace y = false end
  /\ forallb not_newline (b_pc b) = true
  /\ lower (b_word b) = txt "diagnosis"
  /\ match b_diag b with [] => False | z :: _ => isspace z = false end
  /\ match rev (b_diag b) with [] => False | z :: _ => isspace z = false end
  /\ forallb not_newline (b_diag b) = true
  /\ forallb isspace (b_sep b) = true
  /\ word_absent (txt "Diagnosis")
       (block_head (txt "Unknown") (b_num b) (b_pc b) (b_body b))
       (b_word b ++ txt ": " ++ b_diag b) = true.

(** "Case <digits>:" starts nowhere inside a block. *)
Fixpoint headings_only_at_starts (blocks : list Block) : Prop :=
  match blocks with
  | [] => True
  | b :: bs =>
      no_heading_after (block_text b) (file_text bs) = true
      /\ headings_only_at_starts bs
  end.

(** The record the first file's loader builds for a well-formed block
    that comes before any specialty header. *)
Definition block_record (b : Block) : CaseRecord :=
  mkCase (txt "Unknown") (b_pc b)
         (strip (block_head (txt "Unknown") (b_num b) (b_pc b) (b_body b)))
         (b_diag b) (b_num b).

(* ================================================================= *)
(** ** The command-line sessions *)

(** [a == b] on texts. *)
Fixpoint text_eqb (a b : text) : bool :=
  match a, b with
  | [], [] => true
  | x :: a', y :: b' => ascii_eqb x y && text_eqb a' b'
  | _, _ => false
  end.

(** How a command-line session ends: the doctor typed quit or exit, a
    diagnosis attempt was scored, an exception escaped, or [input] met the
    end of the input (its [EOFError] escapes). *)
Inductive ending :=
| Quit
| Scored (s : Score)
| Failed (e : exn)
| EndOfInput.

(** What a session does: the replies it prints after "Patient: ", in
    order, how it ends, and the requests it sends. *)
Record Session := mkSession {
  replies : list text;
  ended : ending;
  requests : list Request
}.

(** [doctor_input.lower() in ['quit', 'exit']] *)
Definition quits (doctor_input : text) : bool :=
  existsb (text_eqb (lower doctor_input)) [txt "quit"; txt "exit"].

(** The [while True:] loop at the end of both files, over the [interact]
    of the file.  A turn is a line typed by the doctor with the behaviour
    of the external service during that turn. *)
Fixpoint main_loop
    (interact : client -> VirtualPatient -> text -> result text * VirtualPatient * list Request)
    (patient : VirtualPatient) (turns : list (client * text)) : Session :=
  match turns with
  | [] => mkSession [] EndOfInput []
  | (cl, doctor_input) :: rest =>
      if quits doctor_input then mkSession [] Quit []
      else
        match interact cl patient doctor_input with
        | (Raise e, _, sent) => mkSession [] (Failed e) sent
        | (Return response, patient, sent) =>
            if diagnosis_made patient
            then mkSession [response] (Scored (get_score patient)) sent
            else
              let later := main_loop interact patient rest in
              mkSession (response :: replies later) (ended later) (sent ++ requests later)
        end
  end.

(** [if __name__ == "__main__":] of [virtual_patient.py]. *)
Definition main (fs : filesystem) (turns : list (client * text)) : Session :=
  match virtual_patient.VirtualPatient.load_cases_from_file
          fs init (txt "100cases without cover and ending.txt") with
  | (Raise e, _) => mkSession [] (Failed e) []
  | (Return _, patient) =>
      main_loop virtual_patient.VirtualPatient.interact patient turns
  end.


(** The turns before the first quit or exit. *)
Fixpoint before_quit (turns : list (client * text)) : list (client * text) :=
  match turns with
  | [] => []
  | t :: rest => if quits (snd t) then [] else t :: before_quit rest
  end.

(** The message is a diagnosis attempt for [interact]. *)
Definition attempts_diagnosis (doctor_message : text) : bool :=
  existsb (fun keyword => contains keyword (lower doctor_message)) diagnosis_keywords.

(** The reply and the score of a diagnosis attempt on a case. *)
Definition attempt_correct (case : CaseRecord) (doctor_message : text) : bool :=
  above_threshold (difflib.ratio (extract_diagnosis_text doctor_message)
                                 (lower (diagnosis case))).

(* ================================================================= *)
(** ** The specialty of a format-A file *)

(** The specialty header the first file's loader finds: the stripped text
    before the first heading when it is upper case and shorter than 50
    characters, "Unknown" otherwise. *)
Definition file_specialty (content : text) : text :=
  match strip (hd [] (re_split virtual_patient.CaseLoader.split_pattern content)) with
  | [] => txt "Unknown"
  | c :: top =>
      if isupper (c :: top) && (len (c :: top) <? 50) then c :: top else txt "Unknown"
  end.

(** The piece starts with "Case". *)
Definition headed (piece : text) : Prop := startswith (txt "Case") piece = true.

(** The specialty [parse_case] reads from the line "Specialty: <sp>". *)
Definition specialty_read (sp : text) : text :=
  strip (replace (txt "Specialty:") [] (txt "Specialty: " ++ take_while not_newline sp)).

(* ================================================================= *)
(** ** Notions used to state the facts about [difflib] *)

(** The indices of [c] in [b], counted from [i]. *)
Fixpoint positions (c : ascii) (i : nat) (b : text) : list nat :=
  match b with
  | [] => []
  | x :: b' =>
      if ascii_eqb x c then i :: positions c (S i) b' else positions c (S i) b'
  end.

(** [c] has a list in [b2j]. *)
Definition present (b2j : difflib.b2j_t) (c : ascii) : bool :=
  match difflib.b2j_get b2j c with
  | [] => false
  | _ :: _ => true
  end.

(** The number of consecutive elements with a list in [b2j] that end at
    index [i] of [a]. *)
Fixpoint run_at (b2j : difflib.b2j_t) (a : text) (i : nat) : nat :=
  if present b2j (difflib.elt_at i a)
  then S (match i with
          | O => 0
          | S i' => run_at b2j a i'
          end)
  else 0.

Definition run_before (b2j : difflib.b2j_t) (a : text) (i : nat) : nat :=
  match i with
  | O => 0
  | S i' => run_at b2j a i'
  end.

(** The best match so far lies on the diagonal, ends before [hi] and is
    at least as long as every run that ends before row [i]. *)
Definition on_diagonal (a : text) (b2j : difflib.b2j_t) (hi i : nat) (best : difflib.block) : Prop :=
  let '(bi, bj, bs) := best in
  bi = bj /\ bi + bs <= hi /\ forall x, x < i -> run_at b2j a x <= bs.

(** What holds after the rounds [0 .. m-1] of the outer loop on a text
    and itself. *)
Definition outer_inv (a : text) (b2j : difflib.b2j_t) (m : nat) (st : difflib.j2len_t * difflib.block) : Prop :=
  on_diagonal a b2j m m (snd st)
  /\ (forall j, difflib.j2len_get (fst st) j <= run_at b2j a j
                /\ difflib.j2len_get (fst st) j <= run_before b2j a m)
  /\ difflib.j2len_get_pred (fst st) m = run_before b2j a m.

(** The block starts at [alo] or later and ends at [hi] or before, in
    [a]. *)
Definition within (alo hi : nat) (best : difflib.block) : Prop :=
  let '(bi, _, bs) := best in alo <= bi /\ bi + bs <= hi.

(** The weight of a queue: each range [(alo, ahi, _, _)] counts
    [2 * (ahi - alo) + 1]. *)
Definition queue_weight (queue : list difflib.range4) : nat :=
  fold_right (fun r acc => let '(alo, ahi, _, _) := r in 2 * (ahi - alo) + 1 + acc)
             0 queue.

(** Records and files used to instantiate the statements. *)
Definition undiagnosed_case : CaseRecord :=
  mkCase (txt "Unknown") (txt "cough")
         (txt "Specialty: Unknown
Case 2: cough
Hx: 1 week")
         [] (txt "2").

Definition this_is_case : CaseRecord :=
  mkCase (txt "Unknown") (txt "sore throat")
         (txt "Specialty: Unknown
Case 1: sore throat
Hx: 3 days")
         (txt "This is strep throat") (txt "1").

Definition flu_case : CaseRecord :=
  mkCase (txt "Unknown") (txt "fever")
         (txt "Specialty: Unknown
Case 3: fever
Hx: 2 days")
         (txt "flu") (txt "3").

Definition session_on (case : CaseRecord) : VirtualPatient :=
  virtual_patient.VirtualPatient.set_case init case.

(** A file system with one file. *)
Definition one_file (name : text) (content : text) : filesystem :=
  fun filename =>
    if startswith name filename && startswith filename name
    then Return content
    else Raise (Exn FileNotFoundError
                    (txt "[Errno 2] No such file or directory: '" ++ filename ++ txt "'")).

Definition two_cases_file : text :=
  txt "Case 1: sore throat
Hx: 3 days
Diagnosis: strep throat
Case 2: cough
Hx: 1 week
Diagnosis: bronchitis".

Definition demonstrates_file : text :=
  txt "Case 1: chest pain
Hx: 2 days
This patient demonstrates: angina".

(* ================================================================= *)
(** ** Facts about characters and texts *)

Lemma ascii_eqb_true (x y : ascii) : ascii_eqb x y = true <-> x = y.
Proof. unfold ascii_eqb. apply Ascii.eqb_eq. Qed.

Lemma ascii_eqb_refl (x : ascii) : ascii_eqb x x = true.
Proof. apply ascii_eqb_true. reflexivity. Qed.

Lemma ascii_eqb_false (x y : ascii) : ascii_eqb x y = false <-> x <> y.
Proof.
  unfold ascii_eqb. split.
  - intros H E. subst. rewrite Ascii.eqb_refl in H. discriminate.
  - intros H. destruct (Ascii.eqb x y) eqn:E; [|reflexivity].
    apply Ascii.eqb_eq in E. contradiction.
Qed.

Lemma elt_at_In (i : nat) (s : text) : i < len s -> In (difflib.elt_at i s) s.
Proof. intros H. unfold difflib.elt_at. apply nth_In. exact H. Qed.

Lemma lower_app (s t : text) : lower (s ++ t) = lower s ++ lower t.
Proof. unfold lower. apply map_app. Qed.

Lemma lower_char_idem (c : ascii) : lower_char (lower_char c) = lower_char c.
Proof. destruct c as [[] [] [] [] [] [] [] []]; reflexivity. Qed.

Lemma lower_idem (s : text) : lower (lower s) = lower s.
Proof.
  unfold lower. rewrite map_map. apply map_ext. intros c. apply lower_char_idem.
Qed.

Lemma startswith_app (p s : text) : startswith p (p ++ s) = true.
Proof.
  induction p as [|x p IH]; simpl; [reflexivity|].
  rewrite ascii_eqb_refl. exact IH.
Qed.

Lemma startswith_true (p s : text) :
  startswith p s = true <-> exists t, s = p ++ t.
Proof.
  split.
  - revert s. induction p as [|x p IH]; intros s H.
    + exists s. reflexivity.
    + destruct s as [|y s]; simpl in H; [discriminate|].
      apply andb_true_iff in H. destruct H as [H1 H2].
      apply ascii_eqb_true in H1. subst y.
      destruct (IH s H2) as [t ->]. exists t. reflexivity.
  - intros [t ->]. apply startswith_app.
Qed.

Lemma contains_unfold (sub s : text) :
  contains sub s =
  startswith sub s || match s with [] => false | _ :: s' => contains sub s' end.
Proof. destruct s; reflexivity. Qed.

Lemma contains_app (sub before after : text) :
  contains sub (before ++ sub ++ after) = true.
Proof.
  induction before as [|x before IH].
  - rewrite contains_unfold. simpl app. rewrite startswith_app. reflexivity.
  - simpl. rewrite IH. apply orb_true_r.
Qed.

Lemma contains_lower (keyword m : text) :
  contains_ignoring_case keyword m -> contains keyword (lower m) = true.
Proof.
  intros (before & middle & after & -> & <-).
  rewrite !lower_app. apply contains_app.
Qed.

Lemma keyword_detected (keyword m : text) :
  In keyword diagnosis_keywords ->
  contains_ignoring_case keyword m ->
  existsb (fun k => contains k (lower m)) diagnosis_keywords = true.
Proof.
  intros Hin Hc. apply existsb_exists. exists keyword. split; [exact Hin|].
  apply contains_lower. exact Hc.
Qed.

(* ================================================================= *)
(** ** Session state *)

(** C7: whatever the session state, [set_case(case)] makes [case] the
    current case, empties the conversation history and sets both
    [diagnosis_made] and [diagnosis_correct] to false (in both files). *)
Theorem set_case_resets_session (self : VirtualPatient) (case : CaseRecord) :
  let after := virtual_patient.VirtualPatient.set_case self case in
  let after2 := virtual_patient_2.VirtualPatient.set_case self case in
  (current_case after = Some case /\ conversation_history after = []
   /\ diagnosis_made after = false /\ diagnosis_correct after = false)
  /\ after2 = after.
Proof. cbv zeta. repeat split. Qed.

(** C8: with no current case, [interact] returns the fixed text
    "No case loaded. Please load a case first." for every message, sends
    nothing to the external service and leaves the whole state as it was
    (in both files). *)
Theorem interact_without_case (cl : client) (self : VirtualPatient) (m : text) :
  current_case self = None ->
  virtual_patient.VirtualPatient.interact cl self m
    = (Return (txt "No case loaded. Please load a case first."), self, [])
  /\ virtual_patient_2.VirtualPatient.interact cl self m
    = (Return (txt "No case loaded. Please load a case first."), self, []).
Proof.
  intros H.
  unfold virtual_patient.VirtualPatient.interact, virtual_patient_2.VirtualPatient.interact.
  rewrite H. split; reflexivity.
Qed.

Lemma interact_without_case_witness :
  current_case init = None
  /\ virtual_patient.VirtualPatient.interact echo_client init
       (txt "Does the pain get worse at night?")
     = (Return (txt "No case loaded. Please load a case first."), init, []).
Proof.
  split; [reflexivity|].
  apply (interact_without_case echo_client init (txt "Does the pain get worse at night?")).
  reflexivity.
Defined.

(** C6: with a current case, a message that holds one of the four
    announcing phrases as a substring up to case is handed to
    [check_diagnosis]: the result and state are those of [check_diagnosis],
    no request is sent to the external service and the conversation history
    is unchanged (in both files). *)
Theorem interact_routes_diagnosis (cl : client) (self : VirtualPatient)
    (case : CaseRecord) (keyword m : text) :
  current_case self = Some case ->
  In keyword [txt "my diagnosis is"; txt "i think this is"; txt "this could be";
              txt "you have"] ->
  contains_ignoring_case keyword m ->
  (virtual_patient.VirtualPatient.interact cl self m
     = (virtual_patient.VirtualPatient.check_diagnosis self m, [])
   /\ conversation_history
        (snd (fst (virtual_patient.VirtualPatient.interact cl self m)))
      = conversation_history self)
  /\ (virtual_patient_2.VirtualPatient.interact cl self m
     = (virtual_patient_2.VirtualPatient.check_diagnosis self m, [])
   /\ conversation_history
        (snd (fst (virtual_patient_2.VirtualPatient.interact cl self m)))
      = conversation_history self).
Proof.
  intros Hcase Hin Hc.
  pose proof (keyword_detected keyword m Hin Hc) as Hk.
  unfold virtual_patient.VirtualPatient.interact, virtual_patient_2.VirtualPatient.interact.
  rewrite Hcase, Hk.
  unfold virtual_patient.VirtualPatient.check_diagnosis,
         virtual_patient_2.VirtualPatient.check_diagnosis.
  cbn [current_case conversation_history]. rewrite Hcase.
  repeat split;
    match goal with
    | |- context [if ?b then _ else _] => destruct b; reflexivity
    end.
Qed.

Lemma interact_routes_diagnosis_witness :
  virtual_patient.VirtualPatient.interact failing_client sample_session
      (txt "I think YOU HAVE strep throat")
  = (virtual_patient.VirtualPatient.check_diagnosis sample_session
       (txt "I think YOU HAVE strep throat"), []).
Proof.
  apply (interact_routes_diagnosis failing_client sample_session sample_case
           (txt "you have") (txt "I think YOU HAVE strep throat")).
  - reflexivity.
  - simpl. tauto.
  - exists (txt "I think "), (txt "YOU HAVE"), (txt " strep throat").
    split; reflexivity.
Defined.

Lemma check_diagnosis_made (self : VirtualPatient) (m : text) :
  diagnosis_made (snd (virtual_patient.VirtualPatient.check_diagnosis self m)) = true
  /\ current_case (snd (virtual_patient.VirtualPatient.check_diagnosis self m))
     = current_case self.
Proof.
  unfold virtual_patient.VirtualPatient.check_diagnosis. cbn [current_case].
  destruct (current_case self) as [case|]; [|split; reflexivity].
  cbn [diagnosis_correct].
  destruct (above_threshold _); split; reflexivity.
Qed.

Lemma step_keeps_diagnosis_made (self : VirtualPatient) (c : call) :
  diagnosis_made self = true -> diagnosis_made (step self c) = true.
Proof.
  intros H. destruct c as [cl m|m|]; cbn [step].
  - unfold virtual_patient.VirtualPatient.interact.
    destruct (current_case self) as [case|]; [|exact H].
    destruct (existsb _ diagnosis_keywords).
    + cbn [fst snd]. apply check_diagnosis_made.
    + cbn [conversation_history]. destruct (cl _); cbn [fst snd diagnosis_made]; exact H.
  - apply check_diagnosis_made.
  - exact H.
Qed.

Lemma step_keeps_current_case (self : VirtualPatient) (c : call) :
  current_case (step self c) = current_case self.
Proof.
  destruct c as [cl m|m|]; cbn [step].
  - unfold virtual_patient.VirtualPatient.interact.
    destruct (current_case self) as [case|] eqn:E; [|exact E].
    destruct (existsb _ diagnosis_keywords).
    + cbn [fst snd]. rewrite (proj2 (check_diagnosis_made self m)). exact E.
    + cbn [conversation_history].
      destruct (cl _); cbn [fst snd current_case]; reflexivity.
  - apply check_diagnosis_made.
  - reflexivity.
Qed.

(** C9: [diagnosis_made] is false after [set_case]; [check_diagnosis] sets
    it; and once it is set, no sequence of [interact], [check_diagnosis]
    and [get_score] calls, whatever the external service answers, clears it
    or changes the current case. *)
Theorem diagnosis_made_monotonic :
  (forall self case,
      diagnosis_made (virtual_patient.VirtualPatient.set_case self case) = false)
  /\ (forall self m,
      diagnosis_made (snd (virtual_patient.VirtualPatient.check_diagnosis self m)) = true)
  /\ (forall calls self,
      diagnosis_made self = true ->
      diagnosis_made (run self calls) = true
      /\ current_case (run self calls) = current_case self).
Proof.
  split; [reflexivity|]. split; [intros; apply check_diagnosis_made|].
  induction calls as [|c calls IH]; intros self H.
  - split; [exact H|reflexivity].
  - unfold run in *. cbn [fold_left].
    destruct (IH (step self c) (step_keeps_diagnosis_made self c H)) as [H1 H2].
    split; [exact H1|]. rewrite H2. apply step_keeps_current_case.
Qed.

Lemma diagnosis_made_monotonic_witness :
  diagnosis_made sample_session = true
  /\ diagnosis_made
       (run sample_session
            [Interact echo_client (txt "Where does it hurt?");
             Interact failing_client (txt "Any fever?");
             CheckDiagnosis (txt "my diagnosis is flu");
             GetScore]) = true.
Proof.
  split; [reflexivity|].
  apply (proj2 (proj2 diagnosis_made_monotonic)). reflexivity.
Defined.

(** C10: in the second file, when the call of the external service in a
    normal turn raises, [interact] returns the text
    "Error generating response: " followed by the error, and the state
    keeps the doctor's message appended to the conversation history. *)
Theorem interact_error_keeps_message (cl : client) (self : VirtualPatient)
    (case : CaseRecord) (m : text) (e : exn) :
  current_case self = Some case ->
  existsb (fun keyword => contains keyword (lower m))
          [txt "my diagnosis is"; txt "i think this is"; txt "this could be";
           txt "you have"] = false ->
  let history := conversation_history self ++ [mkMessage (txt "user") m] in
  let request := build_request (presenting_complaint case) (case_details case) history in
  cl request = Raise e ->
  virtual_patient_2.VirtualPatient.interact cl self m
  = (Return (txt "Error generating response: " ++ str_of e),
     mkVP history (all_cases self) (current_case self)
          (diagnosis_made self) (diagnosis_correct self),
     [request]).
Proof.
  intros Hcase Hk history request Hcl.
  unfold virtual_patient_2.VirtualPatient.interact.
  rewrite Hcase. fold diagnosis_keywords in Hk. rewrite Hk.
  cbn [conversation_history current_case all_cases diagnosis_made diagnosis_correct].
  fold history. fold request. rewrite Hcl. reflexivity.
Qed.

Lemma interact_error_keeps_message_witness :
  virtual_patient_2.VirtualPatient.interact failing_client sample_session
    (txt "Any fever?")
  = (Return (txt "Error generating response: Connection error."),
     mkVP (conversation_history sample_session
             ++ [mkMessage (txt "user") (txt "Any fever?")])
          [sample_case] (Some sample_case) true true,
     [build_request (txt "sore throat") (case_details sample_case)
        (conversation_history sample_session
           ++ [mkMessage (txt "user") (txt "Any fever?")])]).
Proof.
  apply (interact_error_keeps_message failing_client sample_session sample_case
           (txt "Any fever?") (Exn ServiceError (txt "Connection error."))).
  - reflexivity.
  - reflexivity.
  - reflexivity.
Defined.

(* ================================================================= *)
(** ** Facts about [difflib] *)

Section b2j_facts.
Import difflib.

Lemma b2j_get_append (d : b2j_t) (e : ascii) (i : nat) (c : ascii) :
  b2j_get (b2j_append d e i) c
  = if ascii_eqb e c then b2j_get d c ++ [i] else b2j_get d c.
Proof.
  induction d as [|[e' l] d IH]; simpl.
  - destruct (ascii_eqb e c); reflexivity.
  - destruct (ascii_eqb e' e) eqn:E1; simpl.
    + apply ascii_eqb_true in E1. subst e'.
      destruct (ascii_eqb e c); reflexivity.
    + destruct (ascii_eqb e' c) eqn:E2.
      * apply ascii_eqb_true in E2. subst c. rewrite ascii_eqb_false in E1.
        assert (ascii_eqb e e' = false) as -> by (apply ascii_eqb_false; congruence).
        reflexivity.
      * exact IH.
Qed.

Lemma b2j_get_chain_loop (b : text) : forall (d : b2j_t) (i : nat) (c : ascii),
  b2j_get (chain_loop d i b) c = b2j_get d c ++ positions c i b.
Proof.
  induction b as [|x b IH]; intros d i c; simpl.
  - symmetry. apply app_nil_r.
  - rewrite IH, b2j_get_append.
    destruct (ascii_eqb x c); [rewrite <- app_assoc|]; reflexivity.
Qed.

Lemma keys_append (d : b2j_t) (e : ascii) (i : nat) (c : ascii) :
  In c (map fst (b2j_append d e i)) -> c = e \/ In c (map fst d).
Proof.
  induction d as [|[e' l] d IH]; simpl.
  - intros [H|[]]. left. congruence.
  - destruct (ascii_eqb e' e); simpl; intros [H|H]; auto.
    destruct (IH H); auto.
Qed.

Lemma NoDup_keys_append (d : b2j_t) (e : ascii) (i : nat) :
  NoDup (map fst d) -> NoDup (map fst (b2j_append d e i)).
Proof.
  induction d as [|[e' l] d IH]; simpl; intros H.
  - constructor; [intros []|constructor].
  - inversion H as [|? ? Hnotin Hd]; subst.
    destruct (ascii_eqb e' e) eqn:E; simpl.
    + constructor; assumption.
    + constructor; [|apply IH; exact Hd].
      intros Hin. apply keys_append in Hin. destruct Hin as [->|Hin].
      * rewrite ascii_eqb_refl in E. discriminate.
      * contradiction.
Qed.

Lemma NoDup_keys_chain_loop (b : text) : forall (d : b2j_t) (i : nat),
  NoDup (map fst d) -> NoDup (map fst (chain_loop d i b)).
Proof.
  induction b as [|x b IH]; intros d i H; simpl; [exact H|].
  apply IH, NoDup_keys_append, H.
Qed.

Lemma b2j_get_absent (d : b2j_t) (c : ascii) :
  ~ In c (map fst d) -> b2j_get d c = [].
Proof.
  induction d as [|[e l] d IH]; simpl; intros H; [reflexivity|].
  destruct (ascii_eqb e c) eqn:E.
  - apply ascii_eqb_true in E. tauto.
  - apply IH. tauto.
Qed.

Lemma keys_filter (f : ascii * list nat -> bool) (d : b2j_t) (c : ascii) :
  In c (map fst (filter f d)) -> In c (map fst d).
Proof.
  rewrite !in_map_iff. intros (x & Hx & Hin). apply filter_In in Hin.
  exists x. tauto.
Qed.

Lemma b2j_get_filter (f : ascii * list nat -> bool) (d : b2j_t) (c : ascii) :
  NoDup (map fst d) ->
  b2j_get (filter f d) c = if f (c, b2j_get d c) then b2j_get d c else [].
Proof.
  induction d as [|[e l] d IH]; simpl; intros H.
  - destruct (f (c, [])); reflexivity.
  - inversion H as [|? ? Hnotin Hd]; subst.
    destruct (ascii_eqb e c) eqn:E.
    + apply ascii_eqb_true in E. subst c.
      destruct (f (e, l)) eqn:F; simpl.
      * rewrite ascii_eqb_refl. reflexivity.
      * apply b2j_get_absent. intros Hin. apply Hnotin. eapply keys_filter, Hin.
    + destruct (f (e, l)); simpl; [rewrite E|]; apply IH, Hd.
Qed.

(** The list of [chain_b b] for [c]: all the indices of [c], or nothing
    when [c] is popular (or absent). *)
Lemma chain_b_get (b : text) (c : ascii) :
  b2j_get (chain_b b) c = [] \/ b2j_get (chain_b b) c = positions c 0 b.
Proof.
  unfold chain_b.
  assert (G : b2j_get (chain_loop [] 0 b) c = positions c 0 b)
    by (rewrite b2j_get_chain_loop; reflexivity).
  destruct (200 <=? len b); [|right; exact G].
  rewrite b2j_get_filter by (apply NoDup_keys_chain_loop; constructor).
  rewrite G. destruct (negb _); auto.
Qed.

Lemma positions_bounds (c : ascii) (b : text) : forall i j,
  In j (positions c i b) -> i <= j /\ j < i + len b /\ nth_error b (j - i) = Some c.
Proof.
  induction b as [|x b IH]; intros i j; simpl; [intros []|].
  destruct (ascii_eqb x c) eqn:E.
  - intros [<-|H].
    + apply ascii_eqb_true in E. subst. rewrite Nat.sub_diag. simpl.
      repeat split; lia.
    + apply IH in H. destruct H as (H1 & H2 & H3).
      replace (j - i) with (S (j - S i)) by lia. simpl. repeat split; try lia. exact H3.
  - intros H. apply IH in H. destruct H as (H1 & H2 & H3).
    replace (j - i) with (S (j - S i)) by lia. simpl. repeat split; try lia. exact H3.
Qed.

Lemma positions_complete (c : ascii) (b : text) : forall i k,
  nth_error b k = Some c -> In (i + k) (positions c i b).
Proof.
  induction b as [|x b IH]; intros i k H; [destruct k; discriminate|].
  destruct k as [|k]; simpl in H.
  - injection H as ->. simpl. rewrite ascii_eqb_refl. left. lia.
  - simpl. replace (i + S k) with (S i + k) by lia.
    destruct (ascii_eqb x c); [right|]; apply IH, H.
Qed.

Lemma positions_sorted (c : ascii) (b : text) : forall i,
  StronglySorted lt (positions c i b).
Proof.
  induction b as [|x b IH]; intros i; simpl; [constructor|].
  destruct (ascii_eqb x c); [|apply IH].
  constructor; [apply IH|].
  apply Forall_forall. intros j H. apply positions_bounds in H. lia.
Qed.

Lemma positions_none (c : ascii) (b : text) : forall i,
  ~ In c b -> positions c i b = [].
Proof.
  induction b as [|x b IH]; intros i H; simpl; [reflexivity|].
  simpl in H. destruct (ascii_eqb x c) eqn:E.
  - apply ascii_eqb_true in E. tauto.
  - apply IH. tauto.
Qed.

Lemma chain_b_get_none (b : text) (c : ascii) :
  ~ In c b -> b2j_get (chain_b b) c = [].
Proof.
  intros H. destruct (chain_b_get b c) as [E|E]; rewrite E; [reflexivity|].
  apply positions_none, H.
Qed.

End b2j_facts.

Section no_common_char_facts.
Import difflib.

Lemma outer_loop_idle (a : text) (b2j : b2j_t) (blo bhi : nat) (rows : list nat) :
  forall st,
  (forall i, In i rows -> b2j_get b2j (elt_at i a) = []) ->
  snd (fold_left (outer_step a b2j blo bhi) rows st) = snd st.
Proof.
  induction rows as [|i rows IH]; intros st H; simpl; [reflexivity|].
  rewrite IH by (intros; apply H; right; assumption).
  unfold outer_step. rewrite H by (left; reflexivity). reflexivity.
Qed.

Lemma extend_left_at_lo (ok : ascii -> bool) (a b : text) (alo blo s : nat) :
  extend_left ok a b alo blo alo blo s = (alo, blo, s).
Proof.
  destruct alo as [|i]; [reflexivity|]. destruct blo as [|j]; [reflexivity|].
  cbn [extend_left]. rewrite Nat.ltb_irrefl. reflexivity.
Qed.

Lemma extend_right_mismatch (ok : ascii -> bool) (a b : text)
    (ahi bhi besti bestj rounds s : nat) :
  (besti + s < ahi -> bestj + s < bhi ->
   elt_at (besti + s) a <> elt_at (bestj + s) b) ->
  extend_right ok a b ahi bhi besti bestj rounds s = s.
Proof.
  intros H. destruct rounds as [|rounds]; [reflexivity|]. cbn [extend_right].
  destruct (besti + s <? ahi) eqn:E1; [|reflexivity].
  destruct (bestj + s <? bhi) eqn:E2; [|reflexivity].
  apply Nat.ltb_lt in E1, E2.
  apply ascii_eqb_false in H; [|assumption..]. rewrite H.
  rewrite andb_false_r. reflexivity.
Qed.

Lemma find_longest_match_none (a b : text) (alo ahi blo bhi : nat) :
  no_common_char a b -> ahi <= len a -> bhi <= len b ->
  find_longest_match a b (chain_b b) alo ahi blo bhi = (alo, blo, 0).
Proof.
  intros Hno Ha Hb.
  assert (Hmis : forall i j, i < ahi -> j < bhi -> elt_at i a <> elt_at j b).
  { intros i j Hi Hj E. apply (Hno (elt_at i a)).
    - apply elt_at_In. lia.
    - rewrite E. apply elt_at_In. lia. }
  unfold find_longest_match, outer_loop.
  rewrite outer_loop_idle.
  - cbn [snd]. unfold extend.
    rewrite extend_left_at_lo.
    rewrite extend_right_mismatch by (rewrite !Nat.add_0_r; apply Hmis).
    rewrite extend_left_at_lo.
    rewrite extend_right_mismatch by (rewrite !Nat.add_0_r; apply Hmis).
    reflexivity.
  - intros i Hi. apply in_seq in Hi.
    apply chain_b_get_none. apply Hno. apply elt_at_In. lia.
Qed.

Lemma get_matching_blocks_none (a b : text) :
  no_common_char a b ->
  get_matching_blocks a b = Some [(len a, len b, 0)].
Proof.
  intros Hno. unfold get_matching_blocks.
  replace (2 * len a + 1) with (S (2 * len a)) by lia.
  cbn [queue_loop].
  rewrite find_longest_match_none by (auto; lia).
  cbn [Nat.eqb]. destruct (2 * len a); reflexivity.
Qed.

Lemma ratio_none (a b : text) :
  no_common_char a b ->
  ratio a b = calculate_ratio 0 (len a + len b).
Proof.
  intros Hno. unfold ratio, ratio_opt.
  rewrite get_matching_blocks_none by exact Hno. reflexivity.
Qed.

End no_common_char_facts.

Lemma above_threshold_zero (length : nat) :
  length <> 0 -> above_threshold (difflib.calculate_ratio 0 length) = false.
Proof.
  intros H. destruct length as [|n]; [contradiction|]. reflexivity.
Qed.

Section identical_facts.
Import difflib.

Lemma run_at_unfold (b2j : b2j_t) (a : text) (i : nat) :
  run_at b2j a i
  = if present b2j (elt_at i a) then S (run_before b2j a i) else 0.
Proof. destruct i; reflexivity. Qed.

Lemma run_at_le (b2j : b2j_t) (a : text) (i : nat) : run_at b2j a i <= i + 1.
Proof.
  induction i as [|i IH]; rewrite run_at_unfold; destruct (present _ _); simpl; lia.
Qed.

Lemma inner_loop_content (i blo bhi : nat) (j2len : j2len_t) (js : list nat) :
  forall new best,
  (forall j, In j js -> blo <= j < bhi) ->
  forall j',
  j2len_get (fst (inner_loop js i blo bhi j2len new best)) j'
  = if existsb (Nat.eqb j') js then j2len_get_pred j2len j' + 1
    else j2len_get new j'.
Proof.
  induction js as [|j js IH]; intros new best H j'; [reflexivity|].
  cbn [inner_loop existsb].
  assert (Hj : blo <= j < bhi) by (apply H; left; reflexivity).
  assert ((j <? blo) = false) as -> by (apply Nat.ltb_ge; lia).
  assert ((bhi <=? j) = false) as -> by (apply Nat.leb_gt; lia).
  destruct best as [[bi bj] bs].
  rewrite IH by (intros; apply H; right; assumption).
  destruct (existsb (Nat.eqb j') js) eqn:E.
  - rewrite orb_true_r. reflexivity.
  - rewrite orb_false_r. cbn [j2len_get]. rewrite (Nat.eqb_sym j' j).
    destruct (j =? j') eqn:E'; [|reflexivity].
    apply Nat.eqb_eq in E'. subst. reflexivity.
Qed.

Lemma inner_loop_diagonal (a : text) (b2j : b2j_t) (i n : nat) (j2len : j2len_t)
    (js : list nat) :
  (forall j, In j js -> j2len_get_pred j2len j + 1 <= run_at b2j a j) ->
  (forall j, In j js -> j2len_get_pred j2len j + 1 <= run_at b2j a i) ->
  (In i js -> j2len_get_pred j2len i + 1 = run_at b2j a i) ->
  (forall j, In j js -> j < n) ->
  StronglySorted lt js ->
  forall new best,
  on_diagonal a b2j (S i) i best ->
  (In i js \/ run_at b2j a i <= snd best) ->
  on_diagonal a b2j (S i) (S i) (snd (inner_loop js i 0 n j2len new best)).
Proof.
  intros K1 K2 K3 Hn.
  induction js as [|j js IH]; intros Hs new [[bi bj] bs] Hd Hi.
  - cbn [inner_loop snd]. destruct Hd as (E & Hle & Hrun).
    destruct Hi as [[]|Hi]. cbn [snd] in Hi.
    split; [exact E|]. split; [lia|].
    intros x Hx. destruct (Nat.eq_dec x i) as [->|]; [exact Hi|apply Hrun; lia].
  - cbn [inner_loop].
    assert ((j <? 0) = false) as -> by reflexivity.
    assert ((n <=? j) = false) as ->
      by (apply Nat.leb_gt, Hn; left; reflexivity).
    inversion Hs as [|? ? Hs' Hall]; subst.
    assert (IH' := fun H1 H2 H3 H4 => IH H1 H2 H3 H4 Hs'). clear IH.
    assert (K1j := K1 j (or_introl eq_refl)).
    assert (K2j := K2 j (or_introl eq_refl)).
    destruct Hd as (E & Hle & Hrun). cbn [snd] in Hi.
    pose proof (run_at_le b2j a i) as Hlei.
    destruct (bs <? j2len_get_pred j2len j + 1) eqn:Hlt.
    + apply Nat.ltb_lt in Hlt.
      assert (j = i) as ->.
      { destruct (Nat.lt_trichotomy j i) as [Hc|[Hc|Hc]]; [|exact Hc|].
        - specialize (Hrun j Hc). lia.
        - destruct Hi as [[Hi|Hi]|Hi]; [lia| |lia].
          rewrite Forall_forall in Hall. specialize (Hall i Hi). lia. }
      pose proof (K3 (or_introl eq_refl)) as Hk.
      apply IH'; try (intros; first [apply K1|apply K2|apply K3|apply Hn]; right; assumption).
      * split; [reflexivity|]. split; [lia|].
        intros x Hx. specialize (Hrun x Hx). lia.
      * right. cbn [snd]. lia.
    + apply Nat.ltb_ge in Hlt.
      apply IH'; try (intros; first [apply K1|apply K2|apply K3|apply Hn]; right; assumption).
      * split; [exact E|]. split; [exact Hle|exact Hrun].
      * cbn [snd]. destruct Hi as [[Hi|Hi]|Hi]; [|left; exact Hi|right; exact Hi].
        subst j. right. rewrite <- (K3 (or_introl eq_refl)). exact Hlt.
Qed.

End identical_facts.

Section identical_facts_2.
Import difflib.

Lemma on_diagonal_next (a : text) (b2j : b2j_t) (m : nat) (best : block) :
  on_diagonal a b2j m m best -> on_diagonal a b2j (S m) m best.
Proof.
  destruct best as [[bi bj] bs]. intros (E & Hle & Hrun).
  split; [exact E|]. split; [lia|exact Hrun].
Qed.

Lemma outer_step_diagonal (a : text) (m : nat) (st : j2len_t * block) :
  m < len a ->
  outer_inv a (chain_b a) m st ->
  outer_inv a (chain_b a) (S m) (outer_step a (chain_b a) 0 (len a) st m).
Proof.
  intros Hm (Hd & Hget & Hpred). unfold outer_step.
  set (b2j := chain_b a) in *. set (c := elt_at m a).
  assert (Hrun : run_at b2j a m = if present b2j c then S (run_before b2j a m) else 0)
    by apply run_at_unfold.
  destruct (b2j_get b2j c) as [|j0 js0] eqn:Ejs.
  - (* no list for a[m]: the round changes nothing *)
    assert (present b2j c = false) as Hp by (unfold present; rewrite Ejs; reflexivity).
    rewrite Hp in Hrun. cbn [inner_loop].
    split; [|split].
    + cbn [snd]. destruct (snd st) as [[bi bj] bs]. destruct Hd as (E & Hle & Hx).
      split; [exact E|]. split; [lia|].
      intros x Hlt. destruct (Nat.eq_dec x m) as [->|]; [lia|apply Hx; lia].
    + intros j. cbn [fst j2len_get]. lia.
    + cbn [fst j2len_get_pred j2len_get run_before]. lia.
  - assert (present b2j c = true) as Hp by (unfold present; rewrite Ejs; reflexivity).
    rewrite Hp in Hrun. rewrite <- Ejs.
    assert (Epos : b2j_get b2j c = positions c 0 a).
    { destruct (chain_b_get a c) as [E|E]; [|exact E].
      fold b2j in E. rewrite E in Ejs. discriminate. }
    assert (Hin : forall j, In j (b2j_get b2j c) -> j < len a /\ elt_at j a = c).
    { intros j Hj. rewrite Epos in Hj. apply positions_bounds in Hj.
      destruct Hj as (_ & Hlt & Hnth). rewrite Nat.sub_0_r in Hnth.
      split; [lia|]. unfold elt_at. apply nth_error_nth. exact Hnth. }
    assert (Hmin : In m (b2j_get b2j c)).
    { rewrite Epos. apply (positions_complete c a 0 m).
      unfold c, elt_at. apply nth_error_nth'. exact Hm. }
    assert (Hrunj : forall j, In j (b2j_get b2j c) ->
                              run_at b2j a j = S (run_before b2j a j)).
    { intros j Hj. rewrite run_at_unfold. destruct (Hin j Hj) as [_ ->].
      rewrite Hp. reflexivity. }
    assert (K1 : forall j, In j (b2j_get b2j c) ->
                           j2len_get_pred (fst st) j + 1 <= run_at b2j a j).
    { intros j Hj. rewrite (Hrunj j Hj). destruct j as [|j]; cbn; [lia|].
      destruct (Hget j). lia. }
    assert (K2 : forall j, In j (b2j_get b2j c) ->
                           j2len_get_pred (fst st) j + 1 <= run_at b2j a m).
    { intros j Hj. rewrite Hrun. destruct j as [|j]; cbn [j2len_get_pred]; [lia|].
      destruct (Hget j). lia. }
    assert (K3 : j2len_get_pred (fst st) m + 1 = run_at b2j a m)
      by (rewrite Hrun, Hpred; lia).
    split; [|split].
    + apply inner_loop_diagonal; auto.
      * intros j Hj. apply Hin, Hj.
      * rewrite Epos. apply positions_sorted.
      * apply on_diagonal_next, Hd.
    + intros j.
      rewrite inner_loop_content by (intros j' Hj'; split; [lia|apply Hin, Hj']).
      destruct (existsb (Nat.eqb j) (b2j_get b2j c)) eqn:Ex.
      * apply existsb_exists in Ex. destruct Ex as (j' & Hj' & Ej).
        apply Nat.eqb_eq in Ej. subst j'.
        split; [apply K1, Hj'|]. cbn [run_before]. apply K2, Hj'.
      * cbn [j2len_get]. lia.
    + cbn [j2len_get_pred run_before].
      rewrite inner_loop_content by (intros j' Hj'; split; [lia|apply Hin, Hj']).
      assert (existsb (Nat.eqb m) (b2j_get b2j c) = true) as ->.
      { apply existsb_exists. exists m. split; [exact Hmin|apply Nat.eqb_refl]. }
      exact K3.
Qed.

Lemma outer_loop_diagonal (a : text) (m : nat) :
  m <= len a ->
  outer_inv a (chain_b a) m
    (fold_left (outer_step a (chain_b a) 0 (len a)) (seq 0 m) ([], (0, 0, 0))).
Proof.
  induction m as [|m IH]; intros Hm.
  - split; [|split].
    + cbn. repeat split; intros; lia.
    + intros j. cbn [seq fold_left fst j2len_get]. split; apply Nat.le_0_l.
    + reflexivity.
  - rewrite seq_S, fold_left_app. cbn [fold_left Nat.add].
    apply outer_step_diagonal; [lia|]. apply IH. lia.
Qed.

Lemma extend_left_same (ok : ascii -> bool) (a : text) :
  (forall c, ok c = true) ->
  forall i s, extend_left ok a a 0 0 i i s = (0, 0, s + i).
Proof.
  intros Hok. induction i as [|i IH]; intros s; cbn [extend_left].
  - rewrite Nat.add_0_r. reflexivity.
  - rewrite Hok, ascii_eqb_refl. cbn [Nat.ltb Nat.leb andb].
    rewrite IH. f_equal. lia.
Qed.

Lemma extend_right_same (ok : ascii -> bool) (a : text) (n : nat) :
  (forall c, ok c = true) ->
  forall rounds s, s + rounds <= n ->
  extend_right ok a a n n 0 0 rounds s = s + rounds.
Proof.
  intros Hok. induction rounds as [|rounds IH]; intros s H; cbn [extend_right].
  - lia.
  - cbn [Nat.add]. rewrite Hok, ascii_eqb_refl.
    assert ((s <? n) = true) as -> by (apply Nat.ltb_lt; lia).
    cbn [andb]. rewrite IH by lia. lia.
Qed.

(** On a text and itself the longest match is the whole text, popular
    elements or not. *)
Lemma find_longest_match_same (a : text) :
  find_longest_match a a (chain_b a) 0 (len a) 0 (len a) = (0, 0, len a).
Proof.
  unfold find_longest_match, outer_loop. rewrite Nat.sub_0_r.
  destruct (outer_loop_diagonal a (len a) (Nat.le_refl _)) as (Hd & _).
  destruct (snd (fold_left _ _ _)) as [[bi bj] bs].
  destruct Hd as (<- & Hle & _).
  unfold extend at 2.
  rewrite extend_left_same by reflexivity.
  rewrite extend_right_same by (reflexivity || lia).
  replace (bs + bi + (len a - (0 + (bs + bi)))) with (len a) by lia.
  unfold extend. rewrite extend_left_at_lo.
  cbn [Nat.add]. rewrite Nat.sub_diag. reflexivity.
Qed.

Lemma get_matching_blocks_same (a : text) :
  get_matching_blocks a a
  = Some (match len a with
          | O => [(0, 0, 0)]
          | S _ => [(0, 0, len a); (len a, len a, 0)]
          end).
Proof.
  unfold get_matching_blocks.
  replace (2 * len a + 1) with (S (2 * len a)) by lia.
  cbn [queue_loop]. rewrite find_longest_match_same.
  rewrite !Nat.add_0_l, !Nat.ltb_irrefl. cbn [andb].
  destruct (len a) as [|n] eqn:E.
  - reflexivity.
  - cbn [Nat.eqb].
    destruct (2 * S n); cbn [queue_loop app sort_blocks fold_right insert_block];
      unfold collapse; cbn; rewrite ?Nat.eqb_refl; reflexivity.
Qed.

Lemma ratio_same (a : text) :
  ratio a a = calculate_ratio (len a) (len a + len a).
Proof.
  unfold ratio, ratio_opt. rewrite get_matching_blocks_same.
  destruct (len a) as [|n]; [reflexivity|].
  cbn [sum_sizes fold_right snd]. f_equal. lia.
Qed.

End identical_facts_2.

(** [2M/T > 0.8] in natural numbers. *)
Lemma above_threshold_spec (matches length : nat) :
  length <> 0 ->
  above_threshold (difflib.calculate_ratio matches length)
  = (4 * length <? 10 * matches).
Proof.
  intros H. destruct length as [|n]; [contradiction|].
  unfold above_threshold, difflib.calculate_ratio, Qle_bool. cbn [Qnum Qden].
  rewrite <- Pos.of_nat_succ, Zpos_P_of_succ_nat.
  destruct (4 * S n <? 10 * matches) eqn:E.
  - apply Nat.ltb_lt in E. apply negb_true_iff, Z.leb_gt. lia.
  - apply Nat.ltb_ge in E. apply negb_false_iff, Z.leb_le. lia.
Qed.

Lemma above_threshold_same (a : text) :
  above_threshold (difflib.ratio a a) = true.
Proof.
  rewrite ratio_same. destruct (len a) as [|n] eqn:E; [reflexivity|].
  rewrite above_threshold_spec by lia. apply Nat.ltb_lt. lia.
Qed.

Section termination_facts.
Import difflib.

Lemma inner_loop_within (i alo blo bhi : nat) (j2len : j2len_t) (js : list nat) :
  alo <= i ->
  (forall j, j2len_get j2len j <= i - alo) ->
  forall new best,
  within alo (S i) best ->
  (forall j, j2len_get new j <= S i - alo) ->
  within alo (S i) (snd (inner_loop js i blo bhi j2len new best))
  /\ forall j, j2len_get (fst (inner_loop js i blo bhi j2len new best)) j <= S i - alo.
Proof.
  intros Hi Hold. induction js as [|j js IH]; intros new best Hb Hnew.
  - split; assumption.
  - cbn [inner_loop]. destruct (j <? blo); [apply IH; assumption|].
    destruct (bhi <=? j); [split; assumption|].
    destruct best as [[bi bj] bs].
    assert (Hk : j2len_get_pred j2len j + 1 <= S i - alo).
    { destruct j as [|j]; cbn [j2len_get_pred]; [lia|]. specialize (Hold j). lia. }
    apply IH.
    + destruct (bs <? j2len_get_pred j2len j + 1); [|exact Hb].
      cbn. lia.
    + intros j'. cbn [j2len_get]. destruct (j =? j'); [exact Hk|apply Hnew].
Qed.

Lemma outer_step_within (a : text) (b2j : b2j_t) (alo blo bhi i : nat)
    (st : j2len_t * block) :
  alo <= i ->
  within alo i (snd st) ->
  (forall j, j2len_get (fst st) j <= i - alo) ->
  within alo (S i) (snd (outer_step a b2j blo bhi st i))
  /\ forall j, j2len_get (fst (outer_step a b2j blo bhi st i)) j <= S i - alo.
Proof.
  intros Hi Hb Hget. unfold outer_step. apply inner_loop_within.
  - exact Hi.
  - exact Hget.
  - destruct (snd st) as [[bi bj] bs]. cbn in *. lia.
  - intros j. cbn. lia.
Qed.

Lemma outer_loop_within (a : text) (b2j : b2j_t) (alo blo bhi m : nat) :
  within alo (alo + m)
    (snd (fold_left (outer_step a b2j blo bhi) (seq alo m) ([], (alo, blo, 0))))
  /\ forall j,
     j2len_get
       (fst (fold_left (outer_step a b2j blo bhi) (seq alo m) ([], (alo, blo, 0)))) j
     <= alo + m - alo.
Proof.
  induction m as [|m IH].
  - cbn. split; [lia|intros; lia].
  - rewrite seq_S, fold_left_app. cbn [fold_left].
    destruct IH as [Hb Hget].
    replace (alo + S m) with (S (alo + m)) by lia.
    apply outer_step_within; [lia|exact Hb|exact Hget].
Qed.

Lemma extend_left_within (ok : ascii -> bool) (a b : text) (alo blo : nat) :
  forall bi bj bs hi,
  within alo hi (bi, bj, bs) ->
  within alo hi (extend_left ok a b alo blo bi bj bs).
Proof.
  induction bi as [|i IH]; intros bj bs hi H; cbn [extend_left]; [exact H|].
  destruct bj as [|j]; [exact H|].
  destruct (alo <? S i) eqn:E; [|exact H]. apply Nat.ltb_lt in E.
  destruct (_ && _ && _); [|exact H].
  apply IH. cbn in *. lia.
Qed.

Lemma extend_right_within (ok : ascii -> bool) (a b : text) (ahi bhi bi bj : nat) :
  forall rounds bs,
  bi + bs <= ahi ->
  bi + extend_right ok a b ahi bhi bi bj rounds bs <= ahi.
Proof.
  induction rounds as [|rounds IH]; intros bs H; cbn [extend_right]; [exact H|].
  destruct (bi + bs <? ahi) eqn:E; [|exact H]. apply Nat.ltb_lt in E.
  destruct (_ && _ && _); [|exact H].
  apply IH. lia.
Qed.

Lemma extend_within (ok : ascii -> bool) (a b : text) (alo ahi blo bhi : nat)
    (best : block) :
  within alo ahi best -> within alo ahi (extend ok a b alo ahi blo bhi best).
Proof.
  destruct best as [[bi bj] bs]. intros H. unfold extend.
  pose proof (extend_left_within ok a b alo blo bi bj bs ahi H) as H'.
  destruct (extend_left ok a b alo blo bi bj bs) as [[bi' bj'] bs'].
  cbn in *. split; [lia|]. apply extend_right_within. lia.
Qed.

(** The match found in [a[alo:ahi]] lies in that range. *)
Lemma find_longest_match_within (a b : text) (b2j : b2j_t) (alo ahi blo bhi : nat) :
  alo <= ahi ->
  within alo ahi (find_longest_match a b b2j alo ahi blo bhi).
Proof.
  intros H. unfold find_longest_match. apply extend_within, extend_within.
  unfold outer_loop.
  destruct (outer_loop_within a b2j alo blo bhi (ahi - alo)) as [Hb _].
  replace (alo + (ahi - alo)) with ahi in Hb by lia. exact Hb.
Qed.

Lemma queue_loop_ends (a b : text) (b2j : b2j_t) :
  forall rounds queue matching_blocks,
  Forall (fun r => let '(alo, ahi, _, _) := r in alo <= ahi) queue ->
  queue_weight queue <= rounds ->
  exists blocks, queue_loop a b b2j rounds queue matching_blocks = Some blocks.
Proof.
  induction rounds as [|rounds IH]; intros queue mb Hq Hw.
  - destruct queue as [|[[[alo ahi] blo] bhi] queue].
    + exists mb. reflexivity.
    + cbn in Hw. lia.
  - destruct queue as [|[[[alo ahi] blo] bhi] queue]; [exists mb; reflexivity|].
    cbn [queue_loop].
    inversion Hq as [|? ? Hr Hq']; subst.
    pose proof (find_longest_match_within a b b2j alo ahi blo bhi Hr) as Hin.
    destruct (find_longest_match a b b2j alo ahi blo bhi) as [[i j] k].
    cbn in Hin. cbn [queue_weight fold_right] in Hw. fold (queue_weight queue) in Hw.
    destruct (k =? 0) eqn:Ek.
    + apply IH; [exact Hq'|lia].
    + apply Nat.eqb_neq in Ek.
      apply IH.
      * destruct ((i + k <? ahi) && (j + k <? bhi));
          destruct ((alo <? i) && (blo <? j)); repeat constructor; auto; lia.
      * destruct ((i + k <? ahi) && (j + k <? bhi));
          destruct ((alo <? i) && (blo <? j));
          cbn [queue_weight fold_right]; fold (queue_weight queue); lia.
Qed.

(** [get_matching_blocks] returns: the bound on the rounds is never
    reached. *)
Lemma ratio_opt_defined (a b : text) : exists r, ratio_opt a b = Some r.
Proof.
  unfold ratio_opt, get_matching_blocks.
  destruct (queue_loop_ends a b (chain_b b) (2 * len a + 1) [(0, len a, 0, len b)] [])
    as [blocks ->].
  - repeat constructor. lia.
  - cbn. lia.
  - eexists. reflexivity.
Qed.

Lemma ratio_is_ratio_opt (a b : text) : ratio_opt a b = Some (ratio a b).
Proof.
  unfold ratio. destruct (ratio_opt_defined a b) as [r ->]. reflexivity.
Qed.

End termination_facts.

(* ----------------------------------------------------------------- *)
(** *** [replace], [strip] and [lower] *)

Lemma replace_from_absent (old new : text) (s : text) :
  contains old s = false -> replace_from old new 0 s = s.
Proof.
  induction s as [|c s IH]; intros H; [reflexivity|].
  rewrite contains_unfold in H. apply orb_false_iff in H. destruct H as [H1 H2].
  cbn [replace_from]. rewrite H1. f_equal. apply IH, H2.
Qed.

Lemma replace_absent (old new : text) (s : text) :
  contains old s = false -> replace old new s = s.
Proof. apply replace_from_absent. Qed.

Lemma replace_from_skip (old new : text) (p rest : text) :
  replace_from old new (len p) (p ++ rest) = replace_from old new 0 rest.
Proof.
  induction p as [|c p IH]; [reflexivity|]. exact IH.
Qed.

Lemma replace_prefix (c : ascii) (old new rest : text) :
  replace (c :: old) new ((c :: old) ++ rest) = new ++ replace (c :: old) new rest.
Proof.
  unfold replace. cbn [app replace_from].
  change (c :: old ++ rest) with ((c :: old) ++ rest).
  rewrite startswith_app. f_equal.
  replace (len (c :: old) - 1) with (len old) by (unfold len; simpl; lia).
  apply replace_from_skip.
Qed.

Lemma isspace_lower_char (c : ascii) : isspace (lower_char c) = isspace c.
Proof. destruct c as [[] [] [] [] [] [] [] []]; reflexivity. Qed.

Lemma lstrip_lower (s : text) : lstrip (lower s) = lower (lstrip s).
Proof.
  induction s as [|c s IH]; [reflexivity|]. cbn [lower map lstrip].
  rewrite isspace_lower_char. destruct (isspace c); [exact IH|reflexivity].
Qed.

Lemma strip_lower (s : text) : strip (lower s) = lower (strip s).
Proof.
  unfold strip, rstrip. rewrite lstrip_lower. unfold lower.
  rewrite <- map_rev. fold (lower (rev (lstrip s))). rewrite lstrip_lower.
  unfold lower. rewrite map_rev. reflexivity.
Qed.

Lemma strip_space (s : text) : strip (" "%char :: s) = strip s.
Proof. reflexivity. Qed.

(** The candidate isolated from "My diagnosis is " followed by [D], when
    [D] has no surrounding whitespace and holds none of the phrases. *)
Lemma extract_announced (D : text) :
  strip D = D ->
  (forall phrase, In phrase diagnosis_phrases -> contains phrase (lower D) = false) ->
  extract_diagnosis_text (txt "My diagnosis is " ++ D) = lower D.
Proof.
  intros Hs Hp.
  assert (Hs' : strip (lower D) = lower D) by (rewrite strip_lower, Hs; reflexivity).
  assert (Hstep : forall phrase, In phrase diagnosis_phrases ->
                  strip (replace phrase [] (lower D)) = lower D).
  { intros phrase Hin. rewrite replace_absent by (apply Hp, Hin). exact Hs'. }
  unfold extract_diagnosis_text. rewrite lower_app.
  change (lower (txt "My diagnosis is "))
    with (txt "my diagnosis is" ++ " "%char :: []).
  rewrite <- app_assoc. cbn [diagnosis_phrases fold_left].
  change (txt "my diagnosis is") with ("m"%char :: txt "y diagnosis is") at 1 2.
  rewrite replace_prefix.
  change ("m"%char :: txt "y diagnosis is") with (txt "my diagnosis is").
  cbn [app].
  assert (replace (txt "my diagnosis is") [] (" "%char :: lower D)
          = " "%char :: lower D) as ->.
  { apply replace_absent. rewrite contains_unfold.
    rewrite (Hp (txt "my diagnosis is")) by (simpl; tauto). reflexivity. }
  rewrite strip_space, Hs'.
  rewrite !Hstep by (simpl; tauto). reflexivity.
Qed.

(* ================================================================= *)
(** ** Loading cases *)

(** The scenario of two cases with a [Diagnosis:] line each. *)
Example load_two_cases :
  virtual_patient.CaseLoader.load_cases_from_file
    (one_file (txt "cases.txt") two_cases_file) (txt "cases.txt")
  = Return
      [mkCase (txt "Unknown") (txt "sore throat")
              (txt "Specialty: Unknown
Case 1: sore throat
Hx: 3 days")
              (txt "strep throat") (txt "1");
       mkCase (txt "Unknown") (txt "cough")
              (txt "Specialty: Unknown
Case 2: cough
Hx: 1 week")
              (txt "bronchitis") (txt "2")].
Proof. vm_compute. reflexivity. Qed.

(** C1: on a file whose one case ends with the diagnosis line
    "This patient demonstrates: angina", the loader of the first file
    returns one record with non-empty details, but its diagnosis is
    "patient", the first group of the third pattern, and not "angina", the
    text that follows the pattern. *)
Theorem load_third_pattern_diagnosis :
  virtual_patient.CaseLoader.load_cases_from_file
    (one_file (txt "cases.txt") demonstrates_file) (txt "cases.txt")
  = Return
      [mkCase (txt "Unknown") (txt "chest pain")
              (txt "Specialty: Unknown
Case 1: chest pain
Hx: 2 days")
              (txt "patient") (txt "1")].
Proof. vm_compute. reflexivity. Qed.

Lemma load_loop_2_nonempty (sections : list text) :
  forall processed,
  processed <> [] ->
  virtual_patient_2.CaseLoader.load_loop sections processed <> [].
Proof.
  induction sections as [|s sections IH]; intros processed H; cbn; [exact H|].
  destruct (strip s); apply IH; [exact H|].
  destruct processed; discriminate.
Qed.

(** C2: the loader of the first file returns the empty list on an empty
    file, where the loader of the second file raises; both raise a
    [ValueError] when the file cannot be opened, and the second loader
    never returns an empty list. *)
Theorem load_empty_file :
  virtual_patient.CaseLoader.load_cases_from_file
    (one_file (txt "cases.txt") []) (txt "cases.txt") = Return []
  /\ virtual_patient_2.CaseLoader.load_cases_from_file
       (one_file (txt "cases.txt") []) (txt "cases.txt")
     = Raise (Exn ValueError
                (txt "Error loading cases: No cases could be parsed from the file"))
  /\ (forall fs filename e,
        fs filename = Raise e ->
        virtual_patient.CaseLoader.load_cases_from_file fs filename
        = Raise (Exn ValueError (txt "Error loading cases: " ++ str_of e))
        /\ exists msg,
           virtual_patient_2.CaseLoader.load_cases_from_file fs filename
           = Raise (Exn ValueError msg))
  /\ (forall fs filename,
        (exists msg,
           virtual_patient_2.CaseLoader.load_cases_from_file fs filename
           = Raise (Exn ValueError msg))
        \/ (exists c cs,
           virtual_patient_2.CaseLoader.load_cases_from_file fs filename
           = Return (c :: cs))).
Proof.
  split; [vm_compute; reflexivity|]. split; [vm_compute; reflexivity|]. split.
  - intros fs filename e H.
    unfold virtual_patient.CaseLoader.load_cases_from_file,
           virtual_patient_2.CaseLoader.load_cases_from_file.
    rewrite H. split; [reflexivity|].
    destruct (kind e); eexists; reflexivity.
  - intros fs filename.
    unfold virtual_patient_2.CaseLoader.load_cases_from_file.
    destruct (fs filename) as [content|e].
    + destruct (virtual_patient_2.CaseLoader.load_loop _ _) as [|c cs].
      * left. eexists. reflexivity.
      * right. exists c, cs. reflexivity.
    + left. destruct (kind e); eexists; reflexivity.
Qed.

Lemma load_empty_file_witness :
  one_file (txt "cases.txt") [] (txt "missing.txt")
  = Raise (Exn FileNotFoundError
             (txt "[Errno 2] No such file or directory: 'missing.txt'"))
  /\ virtual_patient.CaseLoader.load_cases_from_file
       (one_file (txt "cases.txt") []) (txt "missing.txt")
     = Raise (Exn ValueError
                (txt "Error loading cases: [Errno 2] No such file or directory: 'missing.txt'")).
Proof.
  split; [reflexivity|].
  apply (proj1 (proj2 (proj2 load_empty_file))
           (one_file (txt "cases.txt") []) (txt "missing.txt")
           (Exn FileNotFoundError
                (txt "[Errno 2] No such file or directory: 'missing.txt'"))).
  reflexivity.
Defined.

(* ================================================================= *)
(** ** Scoring a diagnosis *)

Lemma check_diagnosis_correct (self : VirtualPatient) (case : CaseRecord) (m : text) :
  current_case self = Some case ->
  diagnosis_correct (snd (virtual_patient.VirtualPatient.check_diagnosis self m))
  = above_threshold
      (difflib.ratio (extract_diagnosis_text m) (lower (diagnosis case))).
Proof.
  intros H. unfold virtual_patient.VirtualPatient.check_diagnosis.
  cbn [current_case]. rewrite H. cbn [diagnosis_correct].
  destruct (above_threshold _); reflexivity.
Qed.

Lemma check_diagnosis_2_correct (self : VirtualPatient) (case : CaseRecord) (m : text) :
  current_case self = Some case ->
  diagnosis_correct (snd (virtual_patient_2.VirtualPatient.check_diagnosis self m))
  = above_threshold
      (difflib.ratio (extract_diagnosis_text m) (lower (diagnosis case))).
Proof.
  intros H. unfold virtual_patient_2.VirtualPatient.check_diagnosis.
  cbn [current_case]. rewrite H. cbn [diagnosis_correct].
  destruct (above_threshold _); reflexivity.
Qed.

Lemma no_common_char_nil (a : text) : no_common_char a [].
Proof. intros c _ []. Qed.

Lemma above_threshold_empty_diagnosis (a : text) :
  above_threshold (difflib.ratio a []) = false <-> a <> [].
Proof.
  rewrite ratio_none by apply no_common_char_nil.
  destruct a as [|c a].
  - split; [discriminate|congruence].
  - split; [discriminate|]. intros _. apply above_threshold_zero. discriminate.
Qed.

(** C3 as the code has it: for a record whose diagnosis is empty,
    [check_diagnosis] leaves [diagnosis_correct] false whenever the
    candidate isolated from the message is not empty (in both files). *)
Theorem empty_diagnosis_scoring (self : VirtualPatient) (case : CaseRecord) (m : text) :
  current_case self = Some case ->
  diagnosis case = [] ->
  extract_diagnosis_text m <> [] ->
  diagnosis_correct (snd (virtual_patient.VirtualPatient.check_diagnosis self m)) = false
  /\ diagnosis_correct (snd (virtual_patient_2.VirtualPatient.check_diagnosis self m))
     = false.
Proof.
  intros Hcase Hd Hne.
  rewrite (check_diagnosis_correct self case m Hcase).
  rewrite (check_diagnosis_2_correct self case m Hcase).
  rewrite Hd. cbn [lower map].
  split; apply above_threshold_empty_diagnosis; exact Hne.
Qed.

Lemma empty_diagnosis_scoring_witness :
  extract_diagnosis_text (txt "You have bronchitis") = txt "bronchitis"
  /\ diagnosis_correct
       (snd (virtual_patient.VirtualPatient.check_diagnosis
               (session_on undiagnosed_case) (txt "You have bronchitis"))) = false.
Proof.
  split; [vm_compute; reflexivity|].
  apply (empty_diagnosis_scoring (session_on undiagnosed_case) undiagnosed_case
           (txt "You have bronchitis") eq_refl eq_refl).
  vm_compute. discriminate.
Defined.

(** C3 fails as stated: with an empty diagnosis and the message "you have",
    the candidate is empty too, the ratio of two empty texts is 1 and the
    attempt is scored correct. *)
Lemma empty_diagnosis_scored_correct :
  diagnosis undiagnosed_case = []
  /\ diagnosis_correct
       (snd (virtual_patient.VirtualPatient.check_diagnosis
               (session_on undiagnosed_case) (txt "you have"))) = true
  /\ diagnosis_correct
       (snd (virtual_patient_2.VirtualPatient.check_diagnosis
               (session_on undiagnosed_case) (txt "you have"))) = true.
Proof. repeat split; vm_compute; reflexivity. Qed.

(** C4 as the code has it: when the diagnosis text [D] has no surrounding
    whitespace and, lower-cased, holds none of the five phrases that
    [check_diagnosis] removes, the message "My diagnosis is " followed by
    [D] is scored correct. *)
Theorem announced_diagnosis_correct (self : VirtualPatient) (case : CaseRecord) :
  current_case self = Some case ->
  strip (diagnosis case) = diagnosis case ->
  (forall phrase,
      In phrase [txt "my diagnosis is"; txt "i think this is"; txt "this could be";
                 txt "you have"; txt "this is"] ->
      contains phrase (lower (diagnosis case)) = false) ->
  diagnosis_correct
    (snd (virtual_patient.VirtualPatient.check_diagnosis self
            (txt "My diagnosis is " ++ diagnosis case))) = true.
Proof.
  intros Hcase Hs Hp.
  rewrite (check_diagnosis_correct self case _ Hcase).
  rewrite extract_announced by assumption.
  apply above_threshold_same.
Qed.

Lemma announced_diagnosis_correct_witness :
  diagnosis_correct
    (snd (virtual_patient.VirtualPatient.check_diagnosis (session_on sample_case)
            (txt "My diagnosis is " ++ txt "strep throat"))) = true.
Proof.
  apply (announced_diagnosis_correct (session_on sample_case) sample_case eq_refl).
  - reflexivity.
  - intros phrase Hin. simpl in Hin.
    repeat (destruct Hin as [<-|Hin]; [vm_compute; reflexivity|]).
    destruct Hin.
Defined.

(** C4 fails as stated: for the diagnosis "This is strep throat" the
    phrase "this is" is removed from the candidate as well, the ratio of
    "strep throat" and "this is strep throat" is 24/32 and the attempt is
    scored incorrect. *)
Lemma announced_diagnosis_scored_incorrect :
  diagnosis_correct
    (snd (virtual_patient.VirtualPatient.check_diagnosis (session_on this_is_case)
            (txt "My diagnosis is " ++ diagnosis this_is_case))) = false.
Proof. vm_compute. reflexivity. Qed.

(** C5 as the code has it: when the candidate isolated from the message
    has no character in common with the lower-cased diagnosis, and the two
    are not both empty, [check_diagnosis] leaves [diagnosis_correct]
    false. *)
Theorem disjoint_candidate_incorrect (self : VirtualPatient) (case : CaseRecord)
    (m : text) :
  current_case self = Some case ->
  no_common_char (extract_diagnosis_text m) (lower (diagnosis case)) ->
  extract_diagnosis_text m <> [] \/ diagnosis case <> [] ->
  diagnosis_correct (snd (virtual_patient.VirtualPatient.check_diagnosis self m)) = false.
Proof.
  intros Hcase Hno Hne.
  rewrite (check_diagnosis_correct self case m Hcase).
  rewrite ratio_none by exact Hno.
  apply above_threshold_zero.
  unfold lower, len. rewrite length_map.
  destruct Hne as [H|H].
  - destruct (extract_diagnosis_text m); [contradiction|discriminate].
  - destruct (diagnosis case); [contradiction|].
    cbn [List.length]. lia.
Qed.

Lemma disjoint_candidate_incorrect_witness :
  diagnosis_correct
    (snd (virtual_patient.VirtualPatient.check_diagnosis (session_on flu_case)
            (txt "I think this is asthma"))) = false.
Proof.
  apply (disjoint_candidate_incorrect (session_on flu_case) flu_case
           (txt "I think this is asthma") eq_refl).
  - intros c Ha Hb. vm_compute in Ha, Hb.
    repeat (destruct Ha as [<-|Ha];
            [repeat (destruct Hb as [Hb|Hb]; [discriminate Hb|]); destruct Hb|]).
    destruct Ha.
  - left. vm_compute. discriminate.
Defined.

(** C5 fails as stated: with an empty diagnosis and the message
    "This could be", the candidate is empty, the two texts have no
    character in common, and the attempt is scored correct. *)
Lemma disjoint_candidate_scored_correct :
  no_common_char (extract_diagnosis_text (txt "This could be"))
                 (diagnosis undiagnosed_case)
  /\ diagnosis_correct
       (snd (virtual_patient.VirtualPatient.check_diagnosis
               (session_on undiagnosed_case) (txt "This could be"))) = true.
Proof.
  split; [intros c _ []|vm_compute; reflexivity].
Qed.

(* ================================================================= *)
(** ** More on the conversation *)

Lemma contains_true (sub s : text) :
  contains sub s = true -> exists before after, s = before ++ sub ++ after.
Proof.
  induction s as [|c s IH]; rewrite contains_unfold; intros H.
  - rewrite orb_false_r in H. apply startswith_true in H. destruct H as [t ->].
    exists [], t. reflexivity.
  - apply orb_true_iff in H. destruct H as [H|H].
    + apply startswith_true in H. destruct H as [t ->]. exists [], t. reflexivity.
    + destruct (IH H) as (before & after & ->). exists (c :: before), after. reflexivity.
Qed.

Lemma lower_contains (keyword m : text) :
  contains keyword (lower m) = true -> contains_ignoring_case keyword m.
Proof.
  intros H. apply contains_true in H. destruct H as (before & after & H).
  unfold lower in H. apply map_eq_app in H.
  destruct H as (m1 & m23 & -> & H1 & H23).
  apply map_eq_app in H23. destruct H23 as (m2 & m3 & -> & H2 & H3).
  exists m1, m2, m3. split; [reflexivity|exact H2].
Qed.

Lemma keyword_free_test (m : text) :
  keyword_free m <->
  existsb (fun keyword => contains keyword (lower m)) diagnosis_keywords = false.
Proof.
  split.
  - intros H. destruct (existsb _ _) eqn:E; [|reflexivity].
    apply existsb_exists in E. destruct E as (k & Hin & Hc).
    exfalso. apply (H k Hin). apply lower_contains, Hc.
  - intros E k Hin Hc.
    rewrite (keyword_detected k m Hin Hc) in E. discriminate.
Qed.

(** X1: with a current case, a message that holds none of the four
    keywords, whatever the case of its letters, takes a normal turn in the
    first file: one request is sent, made of the system prompt and the
    history with the doctor's message appended; a reply is appended as an
    assistant turn and returned as it is; an exception of the service
    propagates and leaves the doctor's message in the history.  The
    diagnosis flags are unchanged either way. *)
Theorem interact_normal_turn (cl : client) (self : VirtualPatient)
    (case : CaseRecord) (m : text) :
  current_case self = Some case ->
  keyword_free m ->
  let history := conversation_history self ++ [mkMessage (txt "user") m] in
  let request := build_request (presenting_complaint case) (case_details case) history in
  virtual_patient.VirtualPatient.interact cl self m
  = match cl request with
    | Return reply =>
        (Return reply,
         mkVP (history ++ [mkMessage (txt "assistant") reply]) (all_cases self)
              (Some case) (diagnosis_made self) (diagnosis_correct self),
         [request])
    | Raise e =>
        (Raise e,
         mkVP history (all_cases self) (Some case)
              (diagnosis_made self) (diagnosis_correct self),
         [request])
    end.
Proof.
  intros Hcase Hfree history request.
  apply keyword_free_test in Hfree.
  unfold virtual_patient.VirtualPatient.interact. rewrite Hcase, Hfree.
  cbn [conversation_history all_cases current_case diagnosis_made diagnosis_correct].
  fold history. fold request. destruct (cl request); reflexivity.
Qed.

Lemma interact_normal_turn_witness :
  virtual_patient.VirtualPatient.interact failing_client sample_session (txt "Any fever?")
  = (Raise (Exn ServiceError (txt "Connection error.")),
     mkVP (conversation_history sample_session
             ++ [mkMessage (txt "user") (txt "Any fever?")])
          [sample_case] (Some sample_case) true true,
     [build_request (txt "sore throat") (case_details sample_case)
        (conversation_history sample_session
           ++ [mkMessage (txt "user") (txt "Any fever?")])]).
Proof.
  apply (interact_normal_turn failing_client sample_session sample_case
           (txt "Any fever?") eq_refl).
  apply keyword_free_test. vm_compute. reflexivity.
Defined.

(** X2: the two files' [interact] agree on every state and message as long
    as the external service does not raise: the [try] block of the second
    file is their only difference. *)
Theorem interact_variants_agree (cl : client) (self : VirtualPatient) (m : text) :
  (forall request e, cl request <> Raise e) ->
  virtual_patient_2.VirtualPatient.interact cl self m
  = virtual_patient.VirtualPatient.interact cl self m.
Proof.
  intros Hcl.
  unfold virtual_patient.VirtualPatient.interact, virtual_patient_2.VirtualPatient.interact.
  destruct (current_case self) as [case|] eqn:Hcase; [|reflexivity].
  destruct (existsb _ diagnosis_keywords).
  - unfold virtual_patient.VirtualPatient.check_diagnosis,
           virtual_patient_2.VirtualPatient.check_diagnosis.
    cbn [current_case]. rewrite Hcase. reflexivity.
  - cbn [conversation_history].
    destruct (cl _) as [reply|e] eqn:E; [reflexivity|].
    exfalso. exact (Hcl _ _ E).
Qed.

Lemma interact_variants_agree_witness :
  virtual_patient_2.VirtualPatient.interact echo_client sample_session (txt "Any fever?")
  = virtual_patient.VirtualPatient.interact echo_client sample_session (txt "Any fever?").
Proof.
  apply (interact_variants_agree echo_client sample_session (txt "Any fever?")).
  intros request e. discriminate.
Defined.

Lemma step_history (self : VirtualPatient) (c : call) :
  exists added,
    conversation_history (step self c) = conversation_history self ++ added
    /\ List.length added <= 2.
Proof.
  destruct c as [cl m|m|]; cbn [step].
  - unfold virtual_patient.VirtualPatient.interact.
    destruct (current_case self) as [case|] eqn:Hcase.
    + destruct (existsb _ diagnosis_keywords).
      * exists []. rewrite app_nil_r. split; [|cbn; lia].
        unfold virtual_patient.VirtualPatient.check_diagnosis.
        cbn [current_case fst snd]. rewrite Hcase.
        cbn [diagnosis_correct]. destruct (above_threshold _); reflexivity.
      * cbn [conversation_history]. destruct (cl _) as [reply|e]; cbn [fst snd].
        -- exists [mkMessage (txt "user") m; mkMessage (txt "assistant") reply].
           cbn [conversation_history]. rewrite <- app_assoc. split; [reflexivity|cbn; lia].
        -- exists [mkMessage (txt "user") m]. split; [reflexivity|cbn; lia].
    + exists []. rewrite app_nil_r. split; [reflexivity|cbn; lia].
  - exists []. rewrite app_nil_r. split; [|cbn; lia].
    unfold virtual_patient.VirtualPatient.check_diagnosis. cbn [current_case].
    destruct (current_case self); [|reflexivity].
    cbn [diagnosis_correct]. destruct (above_threshold _); reflexivity.
  - exists []. rewrite app_nil_r. split; [reflexivity|cbn; lia].
Qed.

(** X3: within a case the conversation history only grows: after any
    sequence of [interact], [check_diagnosis] and [get_score] calls,
    whatever the external service does, the history is the former one
    followed by at most two turns for each call. *)
Theorem history_append_only (calls : list call) (self : VirtualPatient) :
  exists added,
    conversation_history (run self calls) = conversation_history self ++ added
    /\ List.length added <= 2 * List.length calls.
Proof.
  revert self. induction calls as [|c calls IH]; intros self.
  - exists []. rewrite app_nil_r. split; [reflexivity|cbn; lia].
  - unfold run in *. cbn [fold_left].
    destruct (IH (step self c)) as (added2 & E2 & L2).
    destruct (step_history self c) as (added1 & E1 & L1).
    exists (added1 ++ added2). rewrite E2, E1, <- app_assoc.
    split; [reflexivity|]. rewrite length_app. cbn [List.length]. lia.
Qed.

Lemma step_flags_consistent (self : VirtualPatient) (c : call) :
  (diagnosis_correct self = true -> diagnosis_made self = true) ->
  diagnosis_correct (step self c) = true -> diagnosis_made (step self c) = true.
Proof.
  intros H. destruct c as [cl m|m|]; cbn [step].
  - unfold virtual_patient.VirtualPatient.interact.
    destruct (current_case self) as [case|]; [|exact H].
    destruct (existsb _ diagnosis_keywords).
    + intros _. cbn [fst snd]. apply check_diagnosis_made.
    + cbn [conversation_history]. destruct (cl _); cbn [fst snd]; exact H.
  - intros _. apply check_diagnosis_made.
  - exact H.
Qed.

(** X4: on a session that starts with [set_case], after any sequence of
    [interact], [check_diagnosis] and [get_score] calls, [get_score]
    returns the score 1 exactly when [diagnosis_correct] holds, and then a
    diagnosis has been made; otherwise the score is 0. *)
Theorem score_reflects_diagnosis (self : VirtualPatient) (case : CaseRecord)
    (calls : list call) :
  let after := run (virtual_patient.VirtualPatient.set_case self case) calls in
  score (get_score after) = (if diagnosis_correct after then 1 else 0)
  /\ (diagnosis_correct after = true -> diagnosis_made after = true).
Proof.
  cbv zeta.
  assert (H : forall calls s,
             (diagnosis_correct s = true -> diagnosis_made s = true) ->
             diagnosis_correct (run s calls) = true -> diagnosis_made (run s calls) = true).
  { clear. induction calls as [|c calls IH]; intros s Hs; [exact Hs|].
    unfold run in *. cbn [fold_left]. apply IH, step_flags_consistent, Hs. }
  specialize (H calls (virtual_patient.VirtualPatient.set_case self case)).
  assert (H' := H (fun E => match Bool.diff_false_true E with end)). clear H.
  split; [|exact H'].
  unfold get_score.
  destruct (diagnosis_correct _) eqn:Ec.
  - rewrite (H' eq_refl). reflexivity.
  - destruct (diagnosis_made _); reflexivity.
Qed.

Lemma contains_middle (d before after : text) :
  contains d (before ++ d ++ after) = true.
Proof. apply contains_app. Qed.

(** X5: with a current case, [check_diagnosis] returns one of the two
    feedback texts, both of which spell out the true diagnosis, and a
    [get_score] call made next gives 1 with the "Correct!" text and 0 with
    the other. *)
Theorem check_diagnosis_then_score (self : VirtualPatient) (case : CaseRecord) (m : text) :
  current_case self = Some case ->
  let reply := fst (virtual_patient.VirtualPatient.check_diagnosis self m) in
  let after := snd (virtual_patient.VirtualPatient.check_diagnosis self m) in
  ((reply = Return (txt "Correct! The diagnosis is " ++ diagnosis case
                    ++ txt ". Would you like to discuss the case or move to the next one?")
    /\ get_score after = mkScore 1 (txt "Correct diagnosis!"))
   \/ (reply = Return (txt "That's not quite right. The actual diagnosis is "
                       ++ diagnosis case
                       ++ txt ". Let's review the key points of the case. What made this diagnosis challenging?")
       /\ get_score after
          = mkScore 0 (txt "Incorrect diagnosis. Review the case details.")))
  /\ exists feedback, reply = Return feedback /\ contains (diagnosis case) feedback = true.
Proof.
  intros Hcase. cbv zeta.
  unfold virtual_patient.VirtualPatient.check_diagnosis.
  cbn [current_case]. rewrite Hcase. cbn [diagnosis_correct].
  destruct (above_threshold _); cbn [fst snd]; (split; [|eexists; split; [reflexivity|]]).
  - left. split; reflexivity.
  - apply contains_middle.
  - right. split; reflexivity.
  - apply contains_middle.
Qed.

Lemma check_diagnosis_then_score_witness :
  get_score (snd (virtual_patient.VirtualPatient.check_diagnosis sample_session
                    (txt "you have strep throat")))
  = mkScore 1 (txt "Correct diagnosis!").
Proof.
  destruct (proj1 (check_diagnosis_then_score sample_session sample_case
                     (txt "you have strep throat") eq_refl)) as [[_ H]|[H _]].
  - exact H.
  - vm_compute in H. discriminate H.
Defined.

(** X6: a diagnosis attempt is scored on its own: with a current case, the
    reply and the state after [check_diagnosis] do not depend on the
    diagnosis flags before the call, so a later attempt replaces the result
    of an earlier one, in either direction. *)
Theorem last_attempt_wins (self : VirtualPatient) (case : CaseRecord) (m1 m2 : text) :
  current_case self = Some case ->
  virtual_patient.VirtualPatient.check_diagnosis
    (snd (virtual_patient.VirtualPatient.check_diagnosis self m1)) m2
  = virtual_patient.VirtualPatient.check_diagnosis self m2.
Proof.
  intros Hcase. unfold virtual_patient.VirtualPatient.check_diagnosis.
  cbn [current_case]. rewrite Hcase. cbn [diagnosis_correct].
  destruct (above_threshold (difflib.ratio (extract_diagnosis_text m1) _));
    cbn [snd conversation_history all_cases current_case diagnosis_correct];
    reflexivity.
Qed.

Lemma last_attempt_wins_witness :
  diagnosis_correct
    (snd (virtual_patient.VirtualPatient.check_diagnosis
            (session_on sample_case) (txt "you have strep throat"))) = true
  /\ diagnosis_correct
       (snd (virtual_patient.VirtualPatient.check_diagnosis
               (snd (virtual_patient.VirtualPatient.check_diagnosis
                       (session_on sample_case) (txt "you have strep throat")))
               (txt "you have asthma"))) = false.
Proof.
  split; [vm_compute; reflexivity|].
  rewrite (last_attempt_wins (session_on sample_case) sample_case
             (txt "you have strep throat") (txt "you have asthma") eq_refl).
  vm_compute. reflexivity.
Defined.

(** X7: scoring ignores the case of letters: two messages with the same
    lower-case form get the same reply and state, and two records that
    differ only in the case of the diagnosis text get the same
    [diagnosis_correct]. *)
Theorem scoring_ignores_case (self : VirtualPatient) (case1 case2 : CaseRecord)
    (m1 m2 : text) :
  lower m1 = lower m2 ->
  lower (diagnosis case1) = lower (diagnosis case2) ->
  virtual_patient.VirtualPatient.check_diagnosis self m1
  = virtual_patient.VirtualPatient.check_diagnosis self m2
  /\ diagnosis_correct
       (snd (virtual_patient.VirtualPatient.check_diagnosis
               (virtual_patient.VirtualPatient.set_case self case1) m1))
     = diagnosis_correct
         (snd (virtual_patient.VirtualPatient.check_diagnosis
                 (virtual_patient.VirtualPatient.set_case self case2) m2)).
Proof.
  intros Hm Hd.
  assert (He : extract_diagnosis_text m1 = extract_diagnosis_text m2)
    by (unfold extract_diagnosis_text; rewrite Hm; reflexivity).
  split.
  - unfold virtual_patient.VirtualPatient.check_diagnosis. rewrite He. reflexivity.
  - rewrite (check_diagnosis_correct
               (virtual_patient.VirtualPatient.set_case self case1) case1 m1 eq_refl).
    rewrite (check_diagnosis_correct
               (virtual_patient.VirtualPatient.set_case self case2) case2 m2 eq_refl).
    rewrite He, Hd. reflexivity.
Qed.

Lemma scoring_ignores_case_witness :
  virtual_patient.VirtualPatient.check_diagnosis sample_session
    (txt "YOU HAVE Strep Throat")
  = virtual_patient.VirtualPatient.check_diagnosis sample_session
      (txt "you have strep throat").
Proof.
  apply (scoring_ignores_case sample_session sample_case sample_case
           (txt "YOU HAVE Strep Throat") (txt "you have strep throat")).
  - reflexivity.
  - reflexivity.
Defined.

(* ================================================================= *)
(** ** More on loading *)

Lemma lstrip_fixed (s : text) :
  match s with [] => True | c :: _ => isspace c = false end -> lstrip s = s.
Proof. destruct s as [|c s]; [reflexivity|]. intros H. cbn. rewrite H. reflexivity. Qed.

Lemma lstrip_front (s : text) :
  match lstrip s with [] => True | c :: _ => isspace c = false end.
Proof.
  induction s as [|c s IH]; [exact I|]. cbn [lstrip].
  destruct (isspace c) eqn:E; [exact IH|exact E].
Qed.

Lemma lstrip_suffix (s : text) : exists w, s = w ++ lstrip s.
Proof.
  induction s as [|c s [w IH]]; [exists []; reflexivity|]. cbn [lstrip].
  destruct (isspace c).
  - exists (c :: w). cbn. f_equal. exact IH.
  - exists []. reflexivity.
Qed.

Lemma rstrip_prefix (s : text) : exists w, s = rstrip s ++ w.
Proof.
  unfold rstrip. destruct (lstrip_suffix (rev s)) as [w H].
  exists (rev w). rewrite <- rev_app_distr, <- H, rev_involutive. reflexivity.
Qed.

Lemma strip_idem (s : text) : strip (strip s) = strip s.
Proof.
  unfold strip at 1.
  assert (Hfront : match strip s with [] => True | c :: _ => isspace c = false end).
  { unfold strip. destruct (rstrip_prefix (lstrip s)) as [w H].
    pose proof (lstrip_front s) as Hf. rewrite H in Hf.
    destruct (rstrip (lstrip s)); [exact I|exact Hf]. }
  rewrite (lstrip_fixed _ Hfront).
  unfold strip, rstrip. rewrite rev_involutive.
  rewrite (lstrip_fixed (lstrip (rev (lstrip s))) (lstrip_front _)). reflexivity.
Qed.

Lemma stripped_strip (s : text) : stripped (strip s).
Proof. apply strip_idem. Qed.

Lemma stripped_nil : stripped [].
Proof. reflexivity. Qed.

(* ----------------------------------------------------------------- *)
(** *** The second file's loader *)

Lemma load_loop_2_spec (sections : list text) : forall processed,
  virtual_patient_2.CaseLoader.load_loop sections processed
  = processed
    ++ map virtual_patient_2.CaseLoader.parse_case
         (filter (fun section => match strip section with [] => false | _ :: _ => true end)
                 sections).
Proof.
  induction sections as [|s sections IH]; intros processed; cbn [filter map].
  - symmetry. apply app_nil_r.
  - cbn [virtual_patient_2.CaseLoader.load_loop].
    destruct (strip s); rewrite IH; [reflexivity|].
    rewrite <- app_assoc. reflexivity.
Qed.

Lemma find_diagnosis_2_stripped (patterns : list regex) (case_text : text) :
  stripped (virtual_patient_2.CaseLoader.find_diagnosis patterns case_text).
Proof.
  induction patterns as [|p patterns IH]; cbn; [reflexivity|].
  destruct (re_search p case_text); [apply stripped_strip|exact IH].
Qed.

(** X8: when the file opens, the second file's loader returns one record
    for each [@]-separated section that is not blank, in order, each with
    the stripped section as its [case_details] (so non-empty) and a
    diagnosis without surrounding whitespace; with no such section it
    raises the [ValueError] "Error loading cases: No cases could be parsed
    from the file". *)
Theorem load_2_sections (fs : filesystem) (filename content : text) :
  fs filename = Return content ->
  match nonblank_sections content with
  | [] =>
      virtual_patient_2.CaseLoader.load_cases_from_file fs filename
      = Raise (Exn ValueError
                 (txt "Error loading cases: No cases could be parsed from the file"))
  | _ :: _ =>
      exists records,
        virtual_patient_2.CaseLoader.load_cases_from_file fs filename = Return records
        /\ map case_details records = map strip (nonblank_sections content)
        /\ Forall (fun r => case_details r <> [] /\ stripped (diagnosis r)) records
  end.
Proof.
  intros Hfs. unfold virtual_patient_2.CaseLoader.load_cases_from_file.
  rewrite Hfs, load_loop_2_spec. cbn [app]. fold (nonblank_sections content).
  assert (Hall : Forall (fun s => strip s <> []) (nonblank_sections content)).
  { apply Forall_forall. intros s Hs. apply filter_In in Hs.
    destruct Hs as [_ Hs]. destruct (strip s); [discriminate|discriminate]. }
  destruct (nonblank_sections content) as [|s secs]; [reflexivity|].
  cbn [map]. eexists. split; [reflexivity|]. split.
  - rewrite <- map_cons, map_map. reflexivity.
  - rewrite <- map_cons. apply Forall_map.
    revert Hall. apply Forall_impl. intros x Hx. split.
    + exact Hx.
    + apply find_diagnosis_2_stripped.
Qed.

Lemma load_2_sections_witness :
  exists records,
    virtual_patient_2.CaseLoader.load_cases_from_file
      (one_file (txt "string.txt") (txt "@CARDIO CASE 1: chest pain
Diagnosis: angina @ @ Case 2: cough"))
      (txt "string.txt") = Return records
    /\ map case_details records
       = [txt "CARDIO CASE 1: chest pain
Diagnosis: angina"; txt "Case 2: cough"].
Proof.
  pose proof (load_2_sections
                (one_file (txt "string.txt") (txt "@CARDIO CASE 1: chest pain
Diagnosis: angina @ @ Case 2: cough"))
                (txt "string.txt") _ eq_refl) as H.
  vm_compute nonblank_sections in H.
  destruct H as (records & H1 & H2 & _).
  exists records. split; [exact H1|]. rewrite H2. vm_compute. reflexivity.
Defined.

(* ----------------------------------------------------------------- *)
(** *** The first file's loader *)

Lemma find_diagnosis_stripped (patterns : list regex) (case_text : text) :
  stripped (fst (virtual_patient.CaseLoader.find_diagnosis patterns case_text)).
Proof.
  induction patterns as [|p patterns IH]; cbn; [reflexivity|].
  destruct (re_search p case_text); [apply stripped_strip|exact IH].
Qed.

Lemma parse_case_stripped (case_text : text) (record : CaseRecord) :
  virtual_patient.CaseLoader.parse_case case_text = Return record ->
  stripped (case_details record) /\ stripped (diagnosis record).
Proof.
  unfold virtual_patient.CaseLoader.parse_case.
  destruct (if startswith _ _ then _ else _) as [[sp title]|e]; [|discriminate].
  destruct (match re_match _ title with Some _ => _ | None => _ end) as [cn pc].
  pose proof (find_diagnosis_stripped virtual_patient.CaseLoader.diagnosis_patterns
                (join [newline] (split_char newline case_text))) as Hd.
  destruct (virtual_patient.CaseLoader.find_diagnosis _ _) as [d rest].
  intros H. injection H as <-. cbn [case_details diagnosis].
  split; [apply stripped_strip|exact Hd].
Qed.

Lemma load_loop_well_loaded (cases : list text) :
  forall processed specialty records,
  Forall well_loaded processed ->
  virtual_patient.CaseLoader.load_loop cases processed specialty = Return records ->
  Forall well_loaded records
  /\ List.length records <= List.length processed + List.length cases.
Proof.
  induction cases as [|case cases IH]; intros processed sp records Hp;
    cbn [virtual_patient.CaseLoader.load_loop].
  - intros H. injection H as <-. split; [exact Hp|cbn; lia].
  - cbn [List.length].
    assert (Hskip : forall sp', virtual_patient.CaseLoader.load_loop cases processed sp'
                                = Return records ->
                    Forall well_loaded records
                    /\ List.length records <= List.length processed + S (List.length cases)).
    { intros sp' H. destruct (IH processed sp' records Hp H). split; [assumption|lia]. }
    destruct (strip case) as [|c rest] eqn:Es; [apply Hskip|].
    destruct (isupper _ && _); [apply Hskip|].
    destruct (startswith _ _); [|apply Hskip].
    destruct (virtual_patient.CaseLoader.parse_case _) as [record|e] eqn:Ep; [|discriminate].
    destruct (case_details record) as [|d ds] eqn:Ed; [apply Hskip|].
    intros H. apply IH in H.
    + destruct H as [H1 H2]. split; [exact H1|]. rewrite length_app in H2. cbn in H2. lia.
    + apply Forall_app. split; [exact Hp|]. constructor; [|constructor].
      destruct (parse_case_stripped _ _ Ep) as [H1 H2].
      split; [rewrite Ed; discriminate|]. split; assumption.
Qed.

(** X9: every record the first file's loader returns has non-empty
    [case_details], and neither its [case_details] nor its diagnosis has
    whitespace at either end; there are at most as many records as pieces
    of the split. *)
Theorem load_records_well_formed (fs : filesystem) (filename content : text)
    (records : list CaseRecord) :
  fs filename = Return content ->
  virtual_patient.CaseLoader.load_cases_from_file fs filename = Return records ->
  Forall (fun r => case_details r <> [] /\ stripped (case_details r)
                   /\ stripped (diagnosis r)) records
  /\ List.length records
     <= List.length (re_split virtual_patient.CaseLoader.split_pattern content).
Proof.
  intros Hfs. unfold virtual_patient.CaseLoader.load_cases_from_file. rewrite Hfs.
  destruct (virtual_patient.CaseLoader.load_loop _ _ _) as [l|e] eqn:E; [|discriminate].
  intros H. injection H as <-.
  apply (load_loop_well_loaded _ [] _ _ (Forall_nil _)) in E. exact E.
Qed.

Lemma load_records_well_formed_witness :
  Forall (fun r => case_details r <> [] /\ stripped (case_details r)
                   /\ stripped (diagnosis r))
         [mkCase (txt "Unknown") (txt "chest pain")
                 (txt "Specialty: Unknown
Case 1: chest pain
Hx: 2 days")
                 (txt "patient") (txt "1")].
Proof.
  apply (load_records_well_formed (one_file (txt "cases.txt") demonstrates_file)
           (txt "cases.txt") demonstrates_file _ eq_refl).
  vm_compute. reflexivity.
Defined.

(* ----------------------------------------------------------------- *)
(** *** [VirtualPatient.load_cases_from_file] *)

(** [VirtualPatient.load_cases_from_file] of the first file.  An
    exception of the loader propagates and leaves the session as it was;
    a non-empty list is stored and its first record becomes the current
    case of a fresh conversation; an empty list is stored too, but then the
    former current case, history and flags stay. *)
Lemma load_into_session (fs : filesystem) (self : VirtualPatient) (filename : text) :
  match virtual_patient.CaseLoader.load_cases_from_file fs filename with
  | Raise e =>
      virtual_patient.VirtualPatient.load_cases_from_file fs self filename
      = (Raise e, self)
  | Return [] =>
      virtual_patient.VirtualPatient.load_cases_from_file fs self filename
      = (Return tt,
         mkVP (conversation_history self) [] (current_case self)
              (diagnosis_made self) (diagnosis_correct self))
  | Return (first :: rest) =>
      virtual_patient.VirtualPatient.load_cases_from_file fs self filename
      = (Return tt, mkVP [] (first :: rest) (Some first) false false)
  end.
Proof.
  unfold virtual_patient.VirtualPatient.load_cases_from_file.
  destruct (virtual_patient.CaseLoader.load_cases_from_file fs filename) as [[|c cs]|e];
    reflexivity.
Qed.

Lemma load_2_outcomes (fs : filesystem) (filename : text) :
  (exists msg,
      virtual_patient_2.CaseLoader.load_cases_from_file fs filename
      = Raise (Exn ValueError msg))
  \/ (exists c cs,
      virtual_patient_2.CaseLoader.load_cases_from_file fs filename = Return (c :: cs)).
Proof.
  unfold virtual_patient_2.CaseLoader.load_cases_from_file.
  destruct (fs filename) as [content|e].
  - destruct (virtual_patient_2.CaseLoader.load_loop _ _) as [|c cs].
    + left. eexists. reflexivity.
    + right. exists c, cs. reflexivity.
  - left. destruct (kind e); eexists; reflexivity.
Qed.

(** X10: [VirtualPatient.load_cases_from_file] of the second file never
    raises: either the session is exactly as before (the file could not be
    opened or held no case), or [all_cases] is a non-empty list whose
    first record is the current case of a fresh conversation. *)
Theorem load_into_session_2 (fs : filesystem) (self : VirtualPatient) (filename : text) :
  let after := virtual_patient_2.VirtualPatient.load_cases_from_file fs self filename in
  after = self
  \/ exists first rest,
       virtual_patient_2.CaseLoader.load_cases_from_file fs filename
       = Return (first :: rest)
       /\ after = mkVP [] (first :: rest) (Some first) false false.
Proof.
  cbv zeta. unfold virtual_patient_2.VirtualPatient.load_cases_from_file.
  destruct (load_2_outcomes fs filename) as [[msg E]|(c & cs & E)]; rewrite E.
  - left. reflexivity.
  - right. exists c, cs. split; reflexivity.
Qed.

Lemma load_into_session_2_fresh :
  virtual_patient_2.VirtualPatient.load_cases_from_file
    (one_file (txt "string.txt") (txt "@ @")) sample_session (txt "string.txt")
  = sample_session.
Proof. vm_compute. reflexivity. Qed.

(* ================================================================= *)
(** ** The chat front end *)

Lemma interact_keeps_cases (cl : client) (self : VirtualPatient) (m : text) :
  all_cases (snd (fst (virtual_patient.VirtualPatient.interact cl self m)))
  = all_cases self
  /\ current_case (snd (fst (virtual_patient.VirtualPatient.interact cl self m)))
     = current_case self.
Proof.
  split; [|apply (step_keeps_current_case self (Interact cl m))].
  unfold virtual_patient.VirtualPatient.interact.
  destruct (current_case self) as [case|] eqn:Hcase; [|reflexivity].
  destruct (existsb _ diagnosis_keywords).
  - unfold virtual_patient.VirtualPatient.check_diagnosis.
    cbn [current_case fst snd]. rewrite Hcase. cbn [diagnosis_correct].
    destruct (above_threshold _); reflexivity.
  - cbn [conversation_history]. destruct (cl _); reflexivity.
Qed.

Lemma next_case_cases (patient : VirtualPatient) :
  all_cases (snd (web_gui.next_case patient))
  = (if 1 <? List.length (all_cases patient)
     then skipn 1 (all_cases patient) else all_cases patient)
  /\ (current_case patient = hd_error (all_cases patient) ->
      current_case (snd (web_gui.next_case patient))
      = hd_error (all_cases (snd (web_gui.next_case patient))))
  /\ exists reply, fst (web_gui.next_case patient) = Return reply.
Proof.
  unfold web_gui.next_case.
  destruct (all_cases patient) as [|c0 [|c1 cs]] eqn:E;
    cbn [List.length Nat.ltb Nat.leb fst snd].
  - split; [exact E|]. split; [rewrite E; tauto|eexists; reflexivity].
  - split; [exact E|]. split; [rewrite E; tauto|eexists; reflexivity].
  - cbn [skipn all_cases fst snd]. split; [reflexivity|].
    split; [reflexivity|eexists; reflexivity].
Qed.

Lemma gui_step_head (patient : VirtualPatient) (e : gui_event) :
  current_case patient = hd_error (all_cases patient) ->
  current_case (gui_step patient e) = hd_error (all_cases (gui_step patient e)).
Proof.
  intros H. destruct e as [cl m|]; cbn [gui_step].
  - unfold web_gui.respond.
    destruct (interact_keeps_cases cl patient m) as [-> ->]. exact H.
  - apply next_case_cases, H.
Qed.

(** X11: in a web session, which starts with a new [VirtualPatient] and
    one [load_cases_from_file], after any chat messages and presses on
    "Next Case" the current case is the first record of [all_cases] (no
    current case when the list is empty), and [next_case] does not
    raise. *)
Theorem gui_current_case_is_head (fs : filesystem) (filename : text)
    (events : list gui_event) :
  let patient :=
    gui_run (snd (virtual_patient.VirtualPatient.load_cases_from_file fs init filename))
            events in
  current_case patient = hd_error (all_cases patient)
  /\ exists reply, fst (web_gui.next_case patient) = Return reply.
Proof.
  cbv zeta. split; [|apply next_case_cases].
  assert (H0 : current_case
                 (snd (virtual_patient.VirtualPatient.load_cases_from_file fs init filename))
               = hd_error
                   (all_cases
                      (snd (virtual_patient.VirtualPatient.load_cases_from_file
                              fs init filename)))).
  { pose proof (load_into_session fs init filename) as H.
    destruct (virtual_patient.CaseLoader.load_cases_from_file fs filename) as [[|c cs]|e];
      rewrite H; reflexivity. }
  revert H0. generalize (snd (virtual_patient.VirtualPatient.load_cases_from_file
                                fs init filename)).
  induction events as [|e events IH]; intros p Hp; [exact Hp|].
  unfold gui_run in *. cbn [fold_left]. apply IH, gui_step_head, Hp.
Qed.

(** X12: presses on "Next Case" walk through the loaded records and stop
    at the last one: after any events, [all_cases] is the former list
    without its first [n] records, [n] being the number of presses but at
    most the length of the list less one; chat messages do not change
    it. *)
Theorem next_case_walks_cases (events : list gui_event) (patient : VirtualPatient) :
  all_cases (gui_run patient events)
  = skipn (Nat.min (presses events) (List.length (all_cases patient) - 1))
          (all_cases patient).
Proof.
  revert patient. induction events as [|e events IH]; intros patient.
  - reflexivity.
  - unfold gui_run in *. cbn [fold_left]. rewrite IH. clear IH.
    destruct e as [cl m|]; unfold presses; cbn [filter is_next_case gui_step List.length].
    + unfold web_gui.respond.
      destruct (interact_keeps_cases cl patient m) as [-> _]. reflexivity.
    + destruct (next_case_cases patient) as [-> _].
      fold (presses events).
      destruct (all_cases patient) as [|c0 [|c1 cs]]; cbn [List.length Nat.ltb Nat.leb].
      * rewrite !Nat.min_0_r. reflexivity.
      * cbn [Nat.sub]. rewrite !Nat.min_0_r. reflexivity.
      * cbn [skipn List.length Nat.sub]. rewrite Nat.sub_0_r.
        rewrite <- Nat.succ_min_distr. reflexivity.
Qed.

(* ================================================================= *)
(** ** Matching *)

(** A greedy [c*] whose continuation accepts everywhere takes the longest
    run. *)
Lemma star_cls_longest (A : Type) (p : ascii -> bool) (k : nat -> text -> option A) :
  (forall pos s, k pos s <> None) ->
  forall s pos,
  star_cls A p pos s k
  = k (pos + len (take_while p s)) (skipn (len (take_while p s)) s).
Proof.
  intros Hk. induction s as [|x s IH]; intros pos; cbn [star_cls take_while].
  - cbn. rewrite Nat.add_0_r. reflexivity.
  - destruct (p x).
    + rewrite IH. cbn [len List.length skipn].
      replace (pos + S (List.length (take_while p s)))
        with (S pos + len (take_while p s)) by (unfold len; lia).
      destruct (k _ _) eqn:E; [reflexivity|]. exfalso. exact (Hk _ _ E).
    + cbn. rewrite Nat.add_0_r. reflexivity.
Qed.

Lemma firstn_take_while (p : ascii -> bool) (s : text) :
  firstn (len (take_while p s)) s = take_while p s.
Proof.
  induction s as [|x s IH]; [reflexivity|]. cbn [take_while].
  destruct (p x); [|reflexivity]. cbn. f_equal. exact IH.
Qed.

Lemma specialty_pattern_later (s : text) : forall pos,
  0 < pos -> search_from virtual_patient_2.CaseLoader.specialty_pattern pos s = None.
Proof.
  induction s as [|x s IH]; intros pos H; cbn [search_from].
  - unfold match_at. cbn. destruct pos; [lia|reflexivity].
  - assert (match_at virtual_patient_2.CaseLoader.specialty_pattern pos (x :: s) = None)
      as -> by (unfold match_at; cbn; destruct pos; [lia|reflexivity]).
    apply IH. lia.
Qed.

(** X13: the specialty of a record of the second file's [parse_case] is
    the leading run of the letters A-Z of the stripped section, the empty
    text when the section does not start with one: a section that starts
    with "CASE 1:" gets the specialty "CASE". *)
Theorem parse_case_2_specialty (section : text) :
  specialty (virtual_patient_2.CaseLoader.parse_case section)
  = take_while upper_AZ (strip section).
Proof.
  unfold virtual_patient_2.CaseLoader.parse_case. cbn [specialty].
  generalize (strip section). intros t.
  unfold re_search. destruct t as [|x t].
  - reflexivity.
  - cbn [search_from]. rewrite specialty_pattern_later by lia.
    unfold match_at, virtual_patient_2.CaseLoader.specialty_pattern.
    cbn [cat exec Plus Nat.eqb take_while].
    destruct (upper_AZ x); [|reflexivity].
    rewrite star_cls_longest by discriminate.
    unfold group. cbn [m_groups group_of Nat.eqb].
    rewrite Nat.sub_0_r. cbn [Nat.add firstn]. f_equal.
    apply firstn_take_while.
Qed.

Example parse_case_2_specialty_case :
  specialty (virtual_patient_2.CaseLoader.parse_case (txt "CASE 1: chest pain"))
  = txt "CASE".
Proof. vm_compute. reflexivity. Qed.

(* ----------------------------------------------------------------- *)
(** *** How [exec] runs on the pieces of the loaders' patterns *)

Lemma exec_lit (A : Type) (f : flags) (ch : ascii) (pos : nat) (s : text)
    (c : captures) (k : nat -> text -> captures -> option A) :
  exec (lit f ch) A pos s c k
  = match s with
    | x :: s' => if char_match f ch x then k (S pos) s' c else None
    | [] => None
    end.
Proof. destruct f; reflexivity. Qed.

Lemma exec_lits (A : Type) (f : flags) (literal : text) :
  forall (pos : nat) (s : text) (c : captures) (k : nat -> text -> captures -> option A),
  exec (lits f literal) A pos s c k
  = if starts_lit f literal s
    then k (pos + len literal) (skipn (len literal) s) c
    else None.
Proof.
  induction literal as [|ch literal IH]; intros pos s c k.
  - cbn. rewrite Nat.add_0_r. reflexivity.
  - destruct literal as [|ch2 literal].
    + cbn [lits]. rewrite exec_lit.
      destruct s as [|x s]; cbn [starts_lit]; [reflexivity|].
      rewrite andb_true_r. destruct (char_match f ch x); [|reflexivity].
      cbn. rewrite Nat.add_1_r. reflexivity.
    + change (lits f (ch :: ch2 :: literal))
        with (Cat (lit f ch) (lits f (ch2 :: literal))).
      cbn [exec]. rewrite exec_lit.
      remember (ch2 :: literal) as literal2 eqn:E2.
      destruct s as [|x s]; cbn [starts_lit]; [reflexivity|].
      destruct (char_match f ch x); cbn [andb]; [|reflexivity].
      rewrite IH. destruct (starts_lit f literal2 s); [|reflexivity].
      unfold len. cbn [List.length skipn].
      replace (S pos + List.length literal2) with (pos + S (List.length literal2))
        by lia.
      reflexivity.
Qed.

Lemma exec_cat (A : Type) (r1 r2 : regex) (pos : nat) (s : text) (c : captures)
    (k : nat -> text -> captures -> option A) :
  exec (Cat r1 r2) A pos s c k
  = exec r1 A pos s c (fun pos' s' c' => exec r2 A pos' s' c' k).
Proof. reflexivity. Qed.

Lemma star_cls_greedy (A : Type) (p : ascii -> bool) (k : nat -> text -> option A) :
  forall s pos r,
  k (pos + len (take_while p s)) (skipn (len (take_while p s)) s) = Some r ->
  star_cls A p pos s k = Some r.
Proof.
  induction s as [|x s IH]; intros pos r H; cbn [star_cls take_while] in *.
  - cbn in H. rewrite Nat.add_0_r in H. exact H.
  - destruct (p x).
    + cbn [len List.length skipn] in H.
      rewrite (IH (S pos) r); [reflexivity|].
      replace (S pos + len (take_while p s))
        with (pos + S (List.length (take_while p s))) by (unfold len; lia).
      exact H.
    + cbn in H. rewrite Nat.add_0_r in H. exact H.
Qed.

Lemma exec_star (A : Type) (p : ascii -> bool) (pos : nat) (s : text) (c : captures)
    (k : nat -> text -> captures -> option A) (r : A) :
  k (pos + len (take_while p s)) (skipn (len (take_while p s)) s) c = Some r ->
  exec (Star p) A pos s c k = Some r.
Proof. intros H. cbn [exec]. apply star_cls_greedy. exact H. Qed.

Lemma exec_grp_plus (A : Type) (n : nat) (p : ascii -> bool) (pos : nat)
    (x : ascii) (s : text) (c : captures)
    (k : nat -> text -> captures -> option A) (r : A) :
  p x = true ->
  k (pos + S (len (take_while p s))) (skipn (len (take_while p s)) s)
    ((n, x :: take_while p s) :: c) = Some r ->
  exec (Grp n (Plus p)) A pos (x :: s) c k = Some r.
Proof.
  intros Hx H. unfold Plus. cbn [exec]. rewrite Hx.
  apply star_cls_greedy.
  replace (S pos + len (take_while p s) - pos) with (S (len (take_while p s))) by lia.
  cbn [firstn]. rewrite firstn_take_while.
  replace (S pos + len (take_while p s)) with (pos + S (len (take_while p s))) by lia.
  exact H.
Qed.

Lemma take_while_app (p : ascii -> bool) (run rest : text) :
  forallb p run = true ->
  match rest with [] => True | x :: _ => p x = false end ->
  take_while p (run ++ rest) = run.
Proof.
  induction run as [|x run IH]; cbn [forallb app take_while].
  - intros _ H. destruct rest as [|y rest]; [reflexivity|]. cbn. rewrite H. reflexivity.
  - intros H1 H2. apply andb_true_iff in H1. destruct H1 as [Hx Hr].
    rewrite Hx. f_equal. apply IH; assumption.
Qed.

Lemma skipn_len_app (run rest : text) : skipn (len run) (run ++ rest) = rest.
Proof. induction run as [|x run IH]; [reflexivity|exact IH]. Qed.

Lemma starts_lit_same (literal rest : text) :
  starts_lit NOFLAG literal (literal ++ rest) = true.
Proof.
  induction literal as [|ch literal IH]; [reflexivity|].
  cbn. rewrite ascii_eqb_refl. exact IH.
Qed.

Lemma starts_lit_lower (literal x rest : text) :
  lower x = lower literal -> starts_lit IGNORECASE literal (x ++ rest) = true.
Proof.
  revert x. induction literal as [|ch literal IH]; intros x H; [reflexivity|].
  destruct x as [|y x]; [discriminate|]. cbn in H. injection H as Hy Hx.
  cbn. rewrite Hy, ascii_eqb_refl. apply IH. exact Hx.
Qed.

Lemma exec_opt_first (A : Type) (r1 : regex) (pos : nat) (s : text) (c : captures)
    (k : nat -> text -> captures -> option A) (r : A) :
  exec r1 A pos s c k = Some r -> exec (Opt r1) A pos s c k = Some r.
Proof. intros H. cbn [exec]. rewrite H. reflexivity. Qed.

Lemma word_absent_split (word before after rest : text) :
  word_absent word (before ++ after) rest = true ->
  after <> [] ->
  starts_lit IGNORECASE word (after ++ rest) = false.
Proof.
  induction before as [|x before IH]; intros H Hne.
  - destruct after as [|y after]; [contradiction|].
    cbn [app word_absent] in H. apply andb_true_iff in H. destruct H as [H _].
    apply negb_true_iff in H. exact H.
  - cbn [app word_absent] in H. apply andb_true_iff in H. destruct H as [_ H].
    apply IH; assumption.
Qed.

Lemma word_absent_tail (word x s rest : text) :
  word_absent word (x ++ s) rest = true -> word_absent word s rest = true.
Proof.
  induction x as [|c x IH]; intros H; [exact H|].
  cbn [app word_absent] in H. apply andb_true_iff in H. destruct H as [_ H].
  apply IH, H.
Qed.

(** The first diagnosis pattern of the first file,
    [r'Diagnosis:?\s*([^\n]+)'] with [re.IGNORECASE]. *)
Lemma first_pattern_needs_word (pos : nat) (s : text) :
  starts_lit IGNORECASE (txt "Diagnosis") s = false ->
  match_at (cat [str IGNORECASE "Diagnosis"; Opt (str IGNORECASE ":"); Star isspace;
                 Grp 1 (Plus not_newline)]) pos s = None.
Proof.
  intros H. unfold match_at, str. cbn [cat]. rewrite exec_cat, exec_lits, H. reflexivity.
Qed.

Lemma first_pattern_here (pos : nat) (word d tail : text) (z : ascii) (d' : text) :
  lower word = txt "diagnosis" ->
  d = z :: d' -> isspace z = false -> forallb not_newline d = true ->
  match tail with [] => True | x :: _ => not_newline x = false end ->
  match_at (cat [str IGNORECASE "Diagnosis"; Opt (str IGNORECASE ":"); Star isspace;
                 Grp 1 (Plus not_newline)]) pos (word ++ txt ": " ++ d ++ tail)
  = Some (mkMatch pos (pos + len (word ++ txt ": " ++ d)) [(1, d)]).
Proof.
  intros Hw -> Hz Hd Htail.
  assert (Hlen : len word = 9).
  { unfold len. rewrite <- (length_map lower_char). fold (lower word). rewrite Hw. reflexivity. }
  cbn [forallb] in Hd. apply andb_true_iff in Hd. destruct Hd as [Hz' Hd'].
  unfold match_at, str. cbn [cat].
  rewrite exec_cat, exec_lits.
  rewrite starts_lit_lower by (rewrite Hw; reflexivity).
  replace (len (txt "Diagnosis")) with (len word) by (rewrite Hlen; reflexivity).
  rewrite (skipn_len_app word).
  cbv beta. rewrite exec_cat.
  apply exec_opt_first. rewrite exec_lits.
  change (txt ": " ++ (z :: d') ++ tail) with (":"%char :: " "%char :: z :: (d' ++ tail)).
  cbn [starts_lit char_match txt list_ascii_of_string skipn len List.length andb].
  change (ascii_eqb (lower_char ":") (lower_char ":")) with true. cbv iota beta.
  rewrite exec_cat. apply exec_star.
  assert (Htw : take_while isspace (" "%char :: z :: d' ++ tail) = [" "%char]).
  { cbn [take_while]. change (isspace " ") with true. cbv iota. rewrite Hz. reflexivity. }
  rewrite Htw. cbn [len List.length skipn]. cbv beta.
  apply exec_grp_plus; [exact Hz'|].
  rewrite (take_while_app not_newline d' tail Hd' Htail).
  f_equal. f_equal.
  unfold len. rewrite !length_app. cbn [List.length]. lia.
Qed.

Lemma search_from_skip (r : regex) (rest : text) : forall (s : text) (pos : nat),
  (forall before after, s = before ++ after -> after <> [] ->
     match_at r (pos + len before) (after ++ rest) = None) ->
  search_from r pos (s ++ rest) = search_from r (pos + len s) rest.
Proof.
  induction s as [|x s IH]; intros pos H.
  - cbn. rewrite Nat.add_0_r. reflexivity.
  - cbn [app search_from].
    pose proof (H [] (x :: s) eq_refl ltac:(discriminate)) as H0.
    cbn in H0. rewrite Nat.add_0_r in H0. rewrite H0.
    rewrite IH.
    + f_equal. unfold len. cbn [List.length]. lia.
    + intros before after E Hne.
      replace (S pos + len before) with (pos + len (x :: before)) by (unfold len; cbn [List.length]; lia).
      apply H; [rewrite E; reflexivity|exact Hne].
Qed.

Lemma sub_from_keep (r : regex) (repl rest : text) : forall (s : text) (pos : nat),
  (forall before after, s = before ++ after -> after <> [] ->
     match_at r (pos + len before) (after ++ rest) = None) ->
  sub_from r repl 0 pos (s ++ rest) = s ++ sub_from r repl 0 (pos + len s) rest.
Proof.
  induction s as [|x s IH]; intros pos H.
  - cbn. rewrite Nat.add_0_r. reflexivity.
  - cbn [app sub_from].
    pose proof (H [] (x :: s) eq_refl ltac:(discriminate)) as H0.
    cbn in H0. rewrite Nat.add_0_r in H0. rewrite H0.
    f_equal. rewrite IH.
    + f_equal. f_equal. unfold len. cbn [List.length]. lia.
    + intros before after E Hne.
      replace (S pos + len before) with (pos + len (x :: before)) by (unfold len; cbn [List.length]; lia).
      apply H; [rewrite E; reflexivity|exact Hne].
Qed.

Lemma sub_from_drop (r : regex) (repl rest : text) : forall (m : text) (pos : nat),
  sub_from r repl (len m) pos (m ++ rest) = sub_from r repl 0 (pos + len m) rest.
Proof.
  induction m as [|x m IH]; intros pos.
  - cbn. rewrite Nat.add_0_r. reflexivity.
  - cbn [len List.length app sub_from]. fold (len m). rewrite IH. f_equal. lia.
Qed.

Lemma sub_from_nil (r : regex) (repl : text) (skip pos : nat) :
  sub_from r repl skip pos [] = [].
Proof. reflexivity. Qed.

Lemma title_match (num pc : text) (n0 y : ascii) (num' pc' : text) :
  num = n0 :: num' -> forallb isdecimal num = true ->
  pc = y :: pc' -> isspace y = false -> forallb not_newline pc = true ->
  exists m,
    re_match virtual_patient.CaseLoader.title_pattern
      (txt "Case " ++ num ++ txt ": " ++ pc) = Some m
    /\ group 1 m = num /\ group 2 m = pc.
Proof.
  intros -> Hnum -> Hy Hpc.
  cbn [forallb] in Hnum, Hpc.
  apply andb_true_iff in Hnum. destruct Hnum as [Hn0 Hnum'].
  apply andb_true_iff in Hpc. destruct Hpc as [Hy' Hpc'].
  eexists. split.
  - unfold re_match, match_at, virtual_patient.CaseLoader.title_pattern, str.
    cbn [cat]. rewrite exec_cat, exec_lits, starts_lit_same, skipn_len_app.
    cbv beta. rewrite exec_cat.
    cbn [app]. apply exec_grp_plus; [exact Hn0|].
    assert (Hd : take_while isdecimal (num' ++ txt ": " ++ y :: pc') = num')
      by (apply take_while_app; [exact Hnum'|reflexivity]).
    rewrite Hd, skipn_len_app. rewrite exec_cat, exec_lits.
    change (txt ": " ++ y :: pc') with (":"%char :: " "%char :: y :: pc').
    cbn [starts_lit char_match txt list_ascii_of_string skipn len List.length andb].
    change (ascii_eqb ":" ":") with true. cbv iota beta.
    rewrite exec_cat. apply exec_star.
    assert (Hs : take_while isspace (" "%char :: y :: pc') = [" "%char]).
    { cbn [take_while]. change (isspace " ") with true. cbv iota. rewrite Hy. reflexivity. }
    rewrite Hs. cbn [len List.length skipn].
    apply exec_grp_plus; [exact Hy'|].
    rewrite <- (app_nil_r pc') at 1 2.
    rewrite (take_while_app not_newline pc' [] Hpc' I).
    reflexivity.
  - split; reflexivity.
Qed.

(* ----------------------------------------------------------------- *)
(** *** Lines *)

Lemma split_char_line (sep : ascii) (line rest : text) :
  forallb (fun c => negb (ascii_eqb c sep)) line = true ->
  split_char sep (line ++ sep :: rest) = line :: split_char sep rest.
Proof.
  induction line as [|c line IH]; cbn [forallb app split_char]; intros H.
  - rewrite ascii_eqb_refl. reflexivity.
  - apply andb_true_iff in H. destruct H as [Hc Hl].
    apply negb_true_iff in Hc. rewrite Hc, (IH Hl). reflexivity.
Qed.

Lemma split_char_cons (sep : ascii) (s : text) :
  exists line lines, split_char sep s = line :: lines.
Proof.
  induction s as [|c s (line & lines & IH)]; cbn [split_char].
  - eexists _, _. reflexivity.
  - destruct (ascii_eqb c sep); [eexists _, _; reflexivity|].
    rewrite IH. eexists _, _. reflexivity.
Qed.

Lemma join_split (sep : ascii) (s : text) : join [sep] (split_char sep s) = s.
Proof.
  induction s as [|c s IH]; [reflexivity|]. cbn [split_char].
  destruct (split_char_cons sep s) as (line & lines & E). rewrite E in *.
  destruct (ascii_eqb c sep) eqn:Ec.
  - apply ascii_eqb_true in Ec. subst c.
    change (join [sep] ([] :: line :: lines)) with ([sep] ++ join [sep] (line :: lines)).
    rewrite IH. reflexivity.
  - destruct lines as [|l2 lines].
    + cbn [join] in *. rewrite IH. reflexivity.
    + change (join [sep] ((c :: line) :: l2 :: lines))
        with (c :: (line ++ [sep] ++ join [sep] (l2 :: lines))).
      change (join [sep] (line :: l2 :: lines))
        with (line ++ [sep] ++ join [sep] (l2 :: lines)) in IH.
      rewrite IH. reflexivity.
Qed.

Lemma search_from_here (r : regex) (pos : nat) (s : text) (m : Match) :
  match_at r pos s = Some m -> search_from r pos s = Some m.
Proof. intros H. destruct s; cbn [search_from]; rewrite H; reflexivity. Qed.

Lemma sub_from_here (r : regex) (repl : text) (pos : nat) (x : ascii) (s : text)
    (m : Match) (k : nat) :
  match_at r pos (x :: s) = Some m ->
  m_end m - m_start m = S k ->
  sub_from r repl 0 pos (x :: s) = repl ++ sub_from r repl k (S pos) s.
Proof. intros H E. cbn [sub_from]. rewrite H, E. reflexivity. Qed.

Lemma first_pattern_absent (word_in rest : text) (pos : nat) :
  word_absent (txt "Diagnosis") word_in rest = true ->
  forall before after, word_in = before ++ after -> after <> [] ->
  match_at (cat [str IGNORECASE "Diagnosis"; Opt (str IGNORECASE ":"); Star isspace;
                 Grp 1 (Plus not_newline)]) (pos + len before) (after ++ rest) = None.
Proof.
  intros H before after -> Hne.
  apply first_pattern_needs_word. eapply word_absent_split; eassumption.
Qed.

Lemma parse_case_block (sp num pc body word d tail : text) :
  forallb not_newline sp = true ->
  contains (txt "Specialty:") sp = false ->
  num <> [] -> forallb isdecimal num = true ->
  match pc with [] => False | y :: _ => isspace y = false end ->
  forallb not_newline pc = true ->
  lower word = txt "diagnosis" ->
  match d with [] => False | z :: _ => isspace z = false end ->
  forallb not_newline d = true ->
  match tail with [] => True | x :: _ => x = newline end ->
  word_absent (txt "Diagnosis") (block_head sp num pc body) (word ++ txt ": " ++ d ++ tail)
  = true ->
  word_absent (txt "Diagnosis") tail [] = true ->
  virtual_patient.CaseLoader.parse_case
    (block_head sp num pc body ++ word ++ txt ": " ++ d ++ tail)
  = Return (mkCase (strip sp) pc (strip (block_head sp num pc body ++ tail))
                   (strip d) num).
Proof.
  intros Hsp Hsp2 Hnum0 Hnum Hpc0 Hpc Hword Hd0 Hd Htail Hab1 Hab2.
  destruct num as [|n0 num']; [contradiction|].
  destruct pc as [|y pc']; [contradiction|].
  destruct d as [|z d']; [contradiction|].
  destruct (title_match (n0 :: num') (y :: pc') n0 y num' pc' eq_refl Hnum eq_refl Hpc0 Hpc)
    as (tm & Htm & Hg1 & Hg2).
  set (head := block_head sp (n0 :: num') (y :: pc') body) in *.
  set (M := word ++ txt ": " ++ (z :: d')).
  set (p1 := cat [str IGNORECASE "Diagnosis"; Opt (str IGNORECASE ":"); Star isspace;
                  Grp 1 (Plus not_newline)]).
  assert (Htail' : match tail with [] => True | x :: _ => not_newline x = false end).
  { destruct tail as [|x tail']; [exact I|]. subst x. reflexivity. }
  assert (Hhere : match_at p1 (len head) (M ++ tail)
                  = Some (mkMatch (len head) (len head + len M) [(1, z :: d')])).
  { unfold M. rewrite <- !app_assoc.
    apply (first_pattern_here (len head) word (z :: d') tail z d' Hword eq_refl Hd0 Hd Htail'). }
  assert (HM : word ++ txt ": " ++ (z :: d') ++ tail = M ++ tail)
    by (unfold M; rewrite <- !app_assoc; reflexivity).
  rewrite HM in *.
  assert (Hsearch : re_search p1 (head ++ M ++ tail)
                    = Some (mkMatch (len head) (len head + len M) [(1, z :: d')])).
  { unfold re_search. rewrite search_from_skip.
    - apply search_from_here. exact Hhere.
    - apply first_pattern_absent. exact Hab1. }
  assert (Hsub : re_sub p1 [] (head ++ M ++ tail) = head ++ tail).
  { unfold re_sub. rewrite sub_from_keep by (apply first_pattern_absent; exact Hab1).
    f_equal. cbn [Nat.add].
    assert (exists w0 M', M = w0 :: M') as (w0 & M' & EM).
    { unfold M. destruct word as [|w0 word']; [discriminate|].
      eexists _, _. reflexivity. }
    rewrite EM in *. cbn [app].
    rewrite (sub_from_here p1 [] (len head) w0 (M' ++ tail) _ (len M') Hhere)
      by (cbn [m_end m_start]; unfold len; cbn [List.length]; lia).
    cbn [app]. rewrite sub_from_drop.
    rewrite <- (app_nil_r tail) at 1.
    rewrite sub_from_keep.
    - rewrite sub_from_nil. apply app_nil_r.
    - intros before after E Hne.
      apply (first_pattern_absent tail [] _ Hab2 before after E Hne). }
  assert (Hline0 : forallb (fun c => negb (ascii_eqb c newline)) (txt "Specialty: " ++ sp)
                   = true).
  { rewrite forallb_app. rewrite andb_true_iff. split; [reflexivity|exact Hsp]. }
  assert (Htitle : forallb (fun c => negb (ascii_eqb c newline))
                           (txt "Case " ++ (n0 :: num') ++ txt ": " ++ (y :: pc')) = true).
  { rewrite !forallb_app. rewrite !andb_true_iff.
    repeat split; try reflexivity; [|exact Hpc].
    clear - Hnum. induction (n0 :: num') as [|c l IH]; [reflexivity|].
    cbn [forallb] in *. apply andb_true_iff in Hnum. destruct Hnum as [Hc Hl].
    rewrite (IH Hl), andb_true_r.
    destruct c as [[] [] [] [] [] [] [] []]; try discriminate Hc; reflexivity. }
  assert (Hlines : exists more,
             split_char newline (head ++ M ++ tail)
             = (txt "Specialty: " ++ sp)
               :: (txt "Case " ++ (n0 :: num') ++ txt ": " ++ (y :: pc')) :: more).
  { unfold head, block_head.
    replace ((txt "Specialty: " ++ sp ++ [newline] ++ txt "Case " ++ (n0 :: num')
              ++ txt ": " ++ (y :: pc') ++ [newline] ++ body) ++ M ++ tail)
      with ((txt "Specialty: " ++ sp) ++ newline
            :: (txt "Case " ++ (n0 :: num') ++ txt ": " ++ (y :: pc')) ++ newline
            :: (body ++ M ++ tail))
      by (rewrite <- !app_assoc; reflexivity).
    rewrite (split_char_line newline _ _ Hline0).
    rewrite (split_char_line newline _ _ Htitle).
    eexists. reflexivity. }
  destruct Hlines as (more & Hlines).
  unfold virtual_patient.CaseLoader.parse_case.
  rewrite join_split. rewrite Hlines.
  cbn [nth nth_error].
  change (txt "Specialty: " ++ sp) with (txt "Specialty:" ++ " "%char :: sp).
  rewrite startswith_app.
  change (txt "Specialty:") with ("S"%char :: txt "pecialty:") at 1 2.
  rewrite replace_prefix.
  change ("S"%char :: txt "pecialty:") with (txt "Specialty:").
  rewrite replace_absent
    by (rewrite contains_unfold, Hsp2; reflexivity).
  rewrite app_nil_l, strip_space.
  rewrite Htm, Hg1, Hg2.
  cbn [virtual_patient.CaseLoader.diagnosis_patterns
       virtual_patient.CaseLoader.find_diagnosis].
  fold p1. rewrite Hsearch, Hsub.
  reflexivity.
Qed.

(** X14: [parse_case] of the first file on a well-formed block.  The text
    is the specialty line, the title line "Case <digits>: <complaint>",
    any body, then the word "diagnosis" in any letter case followed by
    ": " and the diagnosis text up to the end of its line, and the word
    occurs nowhere else.  The record then has the digits as case number,
    the complaint, the stripped diagnosis text, the stripped specialty, and
    as details the stripped text without the diagnosis. *)
Theorem parse_case_well_formed (sp num pc body word d tail : text) :
  forallb not_newline sp = true ->
  contains (txt "Specialty:") sp = false ->
  num <> [] -> forallb isdecimal num = true ->
  match pc with [] => False | y :: _ => isspace y = false end ->
  forallb not_newline pc = true ->
  lower word = txt "diagnosis" ->
  match d with [] => False | z :: _ => isspace z = false end ->
  forallb not_newline d = true ->
  match tail with [] => True | x :: _ => x = newline end ->
  word_absent (txt "Diagnosis") (block_head sp num pc body) (word ++ txt ": " ++ d ++ tail)
  = true ->
  word_absent (txt "Diagnosis") tail [] = true ->
  virtual_patient.CaseLoader.parse_case
    (block_head sp num pc body ++ word ++ txt ": " ++ d ++ tail)
  = Return (mkCase (strip sp) pc (strip (block_head sp num pc body ++ tail))
                   (strip d) num).
Proof. apply parse_case_block. Qed.

Lemma parse_case_well_formed_witness :
  virtual_patient.CaseLoader.parse_case
    (block_head (txt "Unknown") (txt "1") (txt "sore throat") (txt "Hx: 3 days
")
     ++ txt "DIAGNOSIS" ++ txt ": " ++ txt "strep throat " ++ txt "
Seen in clinic.")
  = Return (mkCase (txt "Unknown") (txt "sore throat")
                   (txt "Specialty: Unknown
Case 1: sore throat
Hx: 3 days

Seen in clinic.")
                   (txt "strep throat") (txt "1")).
Proof.
  apply (parse_case_well_formed (txt "Unknown") (txt "1") (txt "sore throat")
           (txt "Hx: 3 days
") (txt "DIAGNOSIS") (txt "strep throat ") (txt "
Seen in clinic.")).
  - reflexivity.
  - reflexivity.
  - discriminate.
  - reflexivity.
  - reflexivity.
  - reflexivity.
  - reflexivity.
  - reflexivity.
  - reflexivity.
  - reflexivity.
  - vm_compute. reflexivity.
  - vm_compute. reflexivity.
Defined.

(* ----------------------------------------------------------------- *)
(** *** Positions do not matter to a pattern without [^] *)

Lemma is_some_star_cls (A B : Type) (p : ascii -> bool)
    (k : nat -> text -> option A) (k' : nat -> text -> option B) :
  (forall pos pos' s, is_some (k pos s) = is_some (k' pos' s)) ->
  forall s pos pos', is_some (star_cls A p pos s k) = is_some (star_cls B p pos' s k').
Proof.
  intros Hk. induction s as [|x s IH]; intros pos pos'; cbn [star_cls].
  - apply Hk.
  - destruct (p x); [|apply Hk].
    specialize (IH (S pos) (S pos')).
    destruct (star_cls A p (S pos) s k), (star_cls B p (S pos') s k');
      cbn in IH; try discriminate; try reflexivity.
    apply Hk.
Qed.

Lemma is_some_exec (r : regex) :
  bos_free r = true ->
  forall (A B : Type) (k : nat -> text -> captures -> option A)
         (k' : nat -> text -> captures -> option B),
  (forall pos pos' s c c', is_some (k pos s c) = is_some (k' pos' s c')) ->
  forall pos pos' s c c',
  is_some (exec r A pos s c k) = is_some (exec r B pos' s c' k').
Proof.
  induction r as [| |p|r1 IH1 r2 IH2|r1 IH1 r2 IH2|r1 IH1|p|n r1 IH1|r1 IH1];
    cbn [bos_free]; intros Hb A B k k' Hk pos pos' s c c'; cbn [exec].
  - apply Hk.
  - discriminate.
  - destruct s as [|x s]; [reflexivity|]. destruct (p x); [apply Hk|reflexivity].
  - apply andb_true_iff in Hb. destruct Hb as [H1 H2].
    apply (IH1 H1). intros. apply (IH2 H2). exact Hk.
  - apply andb_true_iff in Hb. destruct Hb as [H1 H2].
    pose proof (IH1 H1 A B k k' Hk pos pos' s c c') as E1.
    pose proof (IH2 H2 A B k k' Hk pos pos' s c c') as E2.
    destruct (exec r1 A pos s c k), (exec r1 B pos' s c' k');
      cbn in E1; try discriminate; try reflexivity.
    exact E2.
  - pose proof (IH1 Hb A B k k' Hk pos pos' s c c') as E1.
    destruct (exec r1 A pos s c k), (exec r1 B pos' s c' k');
      cbn in E1; try discriminate; try reflexivity.
    apply Hk.
  - apply is_some_star_cls. intros. apply Hk.
  - apply (IH1 Hb). intros. apply Hk.
  - pose proof (IH1 Hb captures captures (fun _ _ c0 => Some c0) (fun _ _ c0 => Some c0)
                  (fun _ _ _ _ _ => eq_refl) pos pos' s c c') as E1.
    destruct (exec r1 captures pos s c _), (exec r1 captures pos' s c' _);
      cbn in E1; try discriminate; try reflexivity.
    apply Hk.
Qed.

Lemma heading_any_pos (pos : nat) (s : text) :
  is_some (match_at virtual_patient.CaseLoader.split_pattern pos s) = heading_here s.
Proof.
  unfold heading_here, match_at. apply is_some_exec; [reflexivity|].
  intros. reflexivity.
Qed.

(* ----------------------------------------------------------------- *)
(** *** Splitting a file of blocks *)

Lemma exec_plus (A : Type) (p : ascii -> bool) (pos : nat)
    (x : ascii) (s : text) (c : captures)
    (k : nat -> text -> captures -> option A) (r : A) :
  p x = true ->
  k (pos + S (len (take_while p s))) (skipn (len (take_while p s)) s) c = Some r ->
  exec (Plus p) A pos (x :: s) c k = Some r.
Proof.
  intros Hx H. unfold Plus. cbn [exec]. rewrite Hx.
  apply star_cls_greedy.
  replace (S pos + len (take_while p s)) with (pos + S (len (take_while p s))) by lia.
  exact H.
Qed.

Lemma exec_ahead (A : Type) (r1 : regex) (pos : nat) (s : text) (c : captures)
    (k : nat -> text -> captures -> option A) :
  exec (Ahead r1) A pos s c k
  = match exec r1 captures pos s c (fun _ _ c' => Some c') with
    | Some c' => k pos s c'
    | None => None
    end.
Proof. reflexivity. Qed.

Lemma digit_not_space (c : ascii) : isdecimal c = true -> isspace c = false.
Proof. destruct c as [[] [] [] [] [] [] [] []]; try discriminate; reflexivity. Qed.

Lemma heading_at_block_start (b : Block) (rest : text) :
  block_ok b -> heading_here (block_text b ++ rest) = true.
Proof.
  intros (Hn0 & Hnum & _).
  destruct (b_num b) as [|n0 num'] eqn:En; [contradiction|].
  cbn [forallb] in Hnum. apply andb_true_iff in Hnum. destruct Hnum as [Hd0 Hnum'].
  unfold heading_here, match_at, block_text, block_core. rewrite En.
  rewrite <- !app_assoc.
  unfold virtual_patient.CaseLoader.split_pattern, str. cbn [cat].
  rewrite exec_ahead.
  assert (E : exec (Cat (lits NOFLAG (txt "Case"))
                        (Cat (Plus isspace) (Cat (Plus isdecimal) (lits NOFLAG (txt ":")))))
                   captures 0
                   (txt "Case " ++ (n0 :: num') ++ txt ": " ++ b_pc b ++ [newline]
                    ++ b_body b ++ b_word b ++ txt ": " ++ b_diag b ++ b_sep b ++ rest)
                   [] (fun _ _ c' => Some c') = Some []).
  { rewrite exec_cat, exec_lits.
    change (txt "Case " ++ (n0 :: num') ++ txt ": " ++ b_pc b ++ [newline]
            ++ b_body b ++ b_word b ++ txt ": " ++ b_diag b ++ b_sep b ++ rest)
      with (txt "Case" ++ " "%char :: n0 :: (num' ++ ":"%char :: " "%char :: b_pc b
            ++ [newline] ++ b_body b ++ b_word b ++ txt ": " ++ b_diag b ++ b_sep b ++ rest)).
    rewrite starts_lit_same, skipn_len_app. cbv beta.
    rewrite exec_cat. apply exec_plus; [reflexivity|].
    cbn [take_while]. rewrite (digit_not_space n0 Hd0).
    cbn [len List.length skipn]. rewrite exec_cat.
    apply exec_plus; [exact Hd0|].
    rewrite take_while_app by (try exact Hnum'; reflexivity).
    rewrite skipn_len_app, exec_lits. reflexivity. }
  rewrite E. reflexivity.
Qed.

Lemma split_from_cons (r : regex) (s : text) : forall pos,
  exists p ps, split_from r pos s = p :: ps.
Proof.
  induction s as [|x s IH]; intros pos; cbn [split_from].
  - destruct (match_at r pos []); eexists _, _; reflexivity.
  - destruct (IH (S pos)) as (p & ps & ->).
    destruct (match_at r pos (x :: s)); eexists _, _; reflexivity.
Qed.

Lemma split_from_skip (r : regex) (rest : text) : forall (T : text) (pos : nat),
  (forall before after, T = before ++ after -> after <> [] ->
     match_at r (pos + len before) (after ++ rest) = None) ->
  split_from r pos (T ++ rest)
  = match split_from r (pos + len T) rest with
    | p :: ps => (T ++ p) :: ps
    | [] => [T]
    end.
Proof.
  induction T as [|x T IH]; intros pos H.
  - cbn [app len List.length]. rewrite Nat.add_0_r.
    destruct (split_from_cons r rest pos) as (p & ps & ->). reflexivity.
  - cbn [app split_from].
    pose proof (H [] (x :: T) eq_refl ltac:(discriminate)) as H0.
    cbn in H0. rewrite Nat.add_0_r in H0. rewrite H0.
    rewrite IH.
    + replace (S pos + len T) with (pos + len (x :: T))
        by (unfold len; cbn [List.length]; lia).
      destruct (split_from_cons r rest (pos + len (x :: T))) as (p & ps & ->).
      reflexivity.
    + intros before after E Hne.
      replace (S pos + len before) with (pos + len (x :: before))
        by (unfold len; cbn [List.length]; lia).
      apply H; [rewrite E; reflexivity|exact Hne].
Qed.

Lemma no_heading_after_split (x : ascii) (T rest : text) :
  no_heading_after (x :: T) rest = true ->
  forall before after, T = before ++ after -> after <> [] ->
  heading_here (after ++ rest) = false.
Proof.
  revert x. induction T as [|y T IH]; intros x H before after E Hne.
  - destruct before; [cbn in E; subst; contradiction|discriminate].
  - cbn [no_heading_after] in H. apply andb_true_iff in H. destruct H as [H1 H2].
    destruct before as [|b before].
    + cbn in E. subst after. apply negb_true_iff in H1. exact H1.
    + cbn in E. injection E as Hy E. apply (IH y H2 before after E Hne).
Qed.

Lemma match_at_none (pos : nat) (s : text) :
  heading_here s = false ->
  match_at virtual_patient.CaseLoader.split_pattern pos s = None.
Proof.
  intros H. rewrite <- (heading_any_pos pos) in H.
  destruct (match_at _ pos s); [discriminate|reflexivity].
Qed.

Lemma split_blocks (blocks : list Block) : forall pos,
  Forall block_ok blocks ->
  headings_only_at_starts blocks ->
  split_from virtual_patient.CaseLoader.split_pattern pos (file_text blocks)
  = match blocks with
    | [] => [[]]
    | _ :: _ => [] :: map block_text blocks
    end.
Proof.
  induction blocks as [|b bs IH]; intros pos Hok Hh.
  - cbn [file_text map List.concat split_from].
    rewrite match_at_none by reflexivity. reflexivity.
  - inversion Hok as [|? ? Hb Hbs]; subst. destruct Hh as [Hin Hh].
    change (file_text (b :: bs)) with (block_text b ++ file_text bs).
    pose proof (heading_at_block_start b (file_text bs) Hb) as Hstart.
    rewrite <- (heading_any_pos pos) in Hstart.
    assert (exists c0 T, block_text b = c0 :: T) as (c0 & T & ET)
      by (eexists _, _; reflexivity).
    rewrite ET in *. cbn [app split_from]. cbn [app] in Hstart.
    destruct (match_at _ pos (c0 :: T ++ file_text bs)); [|discriminate Hstart].
    cbn [map].
    rewrite split_from_skip.
    + rewrite (IH _ Hbs Hh), ET.
      destruct bs; rewrite app_nil_r; reflexivity.
    + intros before after E Hne. apply match_at_none.
      apply (no_heading_after_split c0 T _ Hin before after E Hne).
Qed.

(* ----------------------------------------------------------------- *)
(** *** Loading a file of blocks *)

Lemma lstrip_spaces (w s : text) :
  forallb isspace w = true -> lstrip (w ++ s) = lstrip s.
Proof.
  induction w as [|c w IH]; [reflexivity|]. cbn [forallb app lstrip]. intros H.
  apply andb_true_iff in H. destruct H as [Hc Hw]. rewrite Hc. apply IH, Hw.
Qed.

Lemma forallb_rev (p : ascii -> bool) (s : text) : forallb p (rev s) = forallb p s.
Proof.
  induction s as [|c s IH]; [reflexivity|]. cbn [rev forallb].
  rewrite forallb_app, IH. cbn. rewrite andb_true_r. apply andb_comm.
Qed.

(** Stripping removes the whitespace after a text that neither starts nor
    ends with whitespace. *)
Lemma strip_padded (s w : text) :
  match s with [] => True | x :: _ => isspace x = false end ->
  match rev s with [] => True | z :: _ => isspace z = false end ->
  forallb isspace w = true ->
  strip (s ++ w) = s.
Proof.
  intros Hfront Hback Hw. unfold strip, rstrip.
  destruct s as [|x s'].
  - cbn [app]. rewrite <- (app_nil_r w) at 1. rewrite lstrip_spaces by exact Hw. reflexivity.
  - rewrite (lstrip_fixed ((x :: s') ++ w)) by exact Hfront.
    rewrite rev_app_distr, lstrip_spaces by (rewrite forallb_rev; exact Hw).
    rewrite (lstrip_fixed _ Hback). apply rev_involutive.
Qed.

Lemma strip_starts (x : ascii) (s : text) :
  isspace x = false -> exists t, strip (x :: s) = x :: t.
Proof.
  intros Hx. unfold strip. rewrite (lstrip_fixed (x :: s)) by exact Hx.
  destruct (rstrip_prefix (x :: s)) as [w H].
  destruct (rstrip (x :: s)) as [|y t] eqn:E.
  - exfalso. unfold rstrip in E.
    assert (Hrev : rev (rev (lstrip (rev (x :: s)))) = rev []) by (rewrite E; reflexivity).
    rewrite rev_involutive in Hrev. cbn [rev] in Hrev.
    assert (Hall : forall u, lstrip u = [] -> forallb isspace u = true).
    { clear. induction u as [|c u IH]; [reflexivity|]. cbn [lstrip forallb].
      destruct (isspace c); [exact IH|discriminate]. }
    apply Hall in Hrev. change (rev s ++ [x]) with (rev (x :: s)) in Hrev.
    rewrite forallb_rev in Hrev. cbn [forallb] in Hrev. rewrite Hx in Hrev. discriminate.
  - cbn [app] in H. injection H as -> _. exists t. reflexivity.
Qed.

Lemma block_core_shape (b : Block) :
  block_core b
  = "C"%char :: "a"%char :: "s"%char :: "e"%char
    :: (" "%char :: b_num b ++ txt ": " ++ b_pc b ++ [newline] ++ b_body b
        ++ b_word b ++ txt ": " ++ b_diag b).
Proof. reflexivity. Qed.

Lemma block_core_back (b : Block) :
  match rev (b_diag b) with [] => False | z :: _ => isspace z = false end ->
  match rev (block_core b) with [] => True | z :: _ => isspace z = false end.
Proof.
  intros H. unfold block_core. rewrite !rev_app_distr.
  destruct (rev (b_diag b)) as [|z t]; [contradiction|exact H].
Qed.

Lemma load_block (b : Block) :
  block_ok b ->
  strip (block_text b) = block_core b
  /\ virtual_patient.CaseLoader.parse_case
       (txt "Specialty: " ++ txt "Unknown" ++ [newline] ++ block_core b)
     = Return (block_record b)
  /\ case_details (block_record b) <> [].
Proof.
  intros (Hn0 & Hnum & Hpc0 & Hpc & Hword & Hd0 & Hdl & Hd & Hsep & Hab).
  split; [|split].
  - unfold block_text. apply strip_padded; [reflexivity| |exact Hsep].
    apply block_core_back, Hdl.
  - pose proof (parse_case_block (txt "Unknown") (b_num b) (b_pc b) (b_body b)
                  (b_word b) (b_diag b) [] eq_refl eq_refl Hn0 Hnum Hpc0 Hpc Hword
                  Hd0 Hd I) as H.
    rewrite !app_nil_r in H. specialize (H Hab eq_refl).
    unfold block_record.
    assert (Hs : strip (b_diag b) = b_diag b).
    { rewrite <- (app_nil_r (b_diag b)) at 1. apply strip_padded.
      - destruct (b_diag b); [contradiction|exact Hd0].
      - destruct (rev (b_diag b)); [contradiction|exact Hdl].
      - reflexivity. }
    assert (Hu : strip (txt "Unknown") = txt "Unknown") by reflexivity.
    rewrite Hs, Hu in H. rewrite <- H. f_equal.
    unfold block_head, block_core. rewrite <- !app_assoc. reflexivity.
  - unfold block_record. cbn [case_details].
    destruct (strip_starts "S"%char
                (txt "pecialty: " ++ txt "Unknown" ++ [newline] ++ txt "Case " ++ b_num b
                 ++ txt ": " ++ b_pc b ++ [newline] ++ b_body b) eq_refl) as [t Ht].
    change (block_head (txt "Unknown") (b_num b) (b_pc b) (b_body b))
      with ("S"%char :: txt "pecialty: " ++ txt "Unknown" ++ [newline] ++ txt "Case "
            ++ b_num b ++ txt ": " ++ b_pc b ++ [newline] ++ b_body b).
    rewrite Ht. discriminate.
Qed.

Lemma load_loop_blocks (blocks : list Block) : forall processed,
  Forall block_ok blocks ->
  virtual_patient.CaseLoader.load_loop (map block_text blocks) processed (txt "Unknown")
  = Return (processed ++ map block_record blocks).
Proof.
  induction blocks as [|b bs IH]; intros processed Hok.
  - cbn. rewrite app_nil_r. reflexivity.
  - inversion Hok as [|? ? Hb Hbs]; subst.
    destruct (load_block b Hb) as (Hstrip & Hparse & Hne).
    assert (Hup : isupper (block_core b) = false) by reflexivity.
    assert (Hsw : startswith (txt "Case") (block_core b) = true) by reflexivity.
    cbn [map virtual_patient.CaseLoader.load_loop]. rewrite Hstrip.
    destruct (block_core b) as [|x t] eqn:Ecore;
      [rewrite block_core_shape in Ecore; discriminate|].
    rewrite Hup, Hsw. cbn [andb]. rewrite Hparse.
    destruct (case_details (block_record b)) eqn:Ed; [contradiction|].
    rewrite IH by exact Hbs. rewrite <- app_assoc. reflexivity.
Qed.

(** X15: a file made of well-formed blocks, each "Case <digits>:
    <complaint>", a body and a line with the word "diagnosis" (any letter
    case), ": " and the diagnosis text, with "Case <digits>:" nowhere
    inside a block, loads in the first file as exactly one record per
    block, in order: the digits as case number, the complaint, the
    diagnosis text, the specialty "Unknown", and as details the stripped
    block without its diagnosis line. *)
Theorem load_well_formed_blocks (fs : filesystem) (filename : text)
    (blocks : list Block) :
  fs filename = Return (file_text blocks) ->
  Forall block_ok blocks ->
  headings_only_at_starts blocks ->
  virtual_patient.CaseLoader.load_cases_from_file fs filename
  = Return (map block_record blocks).
Proof.
  intros Hfs Hok Hh. unfold virtual_patient.CaseLoader.load_cases_from_file.
  rewrite Hfs. unfold re_split. rewrite (split_blocks blocks 0 Hok Hh).
  destruct blocks as [|b bs]; [reflexivity|].
  cbn [virtual_patient.CaseLoader.load_loop strip lstrip rstrip rev app].
  rewrite (load_loop_blocks (b :: bs) [] Hok). reflexivity.
Qed.

Lemma load_well_formed_blocks_witness :
  virtual_patient.CaseLoader.load_cases_from_file
    (fun _ => Return (file_text
       [mkBlock (txt "1") (txt "Chest pain") (txt "History: crushing pain for 2 hours.
") (txt "Diagnosis") (txt "Myocardial infarction") (txt "

");
        mkBlock (txt "12") (txt "Fever and cough") (txt "Exam: crackles at the right base.
") (txt "DIAGNOSIS") (txt "Pneumonia") (txt "
")]))
    (txt "cases.txt")
  = Return (map block_record
       [mkBlock (txt "1") (txt "Chest pain") (txt "History: crushing pain for 2 hours.
") (txt "Diagnosis") (txt "Myocardial infarction") (txt "

");
        mkBlock (txt "12") (txt "Fever and cough") (txt "Exam: crackles at the right base.
") (txt "DIAGNOSIS") (txt "Pneumonia") (txt "
")]).
Proof.
  apply load_well_formed_blocks.
  - reflexivity.
  - repeat constructor; try discriminate; vm_compute; reflexivity.
  - repeat split; vm_compute; reflexivity.
Defined.

(* ================================================================= *)
(** ** The command-line sessions *)

Lemma text_eqb_eq (a b : text) : text_eqb a b = true -> a = b.
Proof.
  revert b. induction a as [|x a IH]; intros [|y b]; cbn [text_eqb];
    try discriminate; [reflexivity|].
  intros H. apply andb_true_iff in H. destruct H as [Hx Hab].
  apply ascii_eqb_true in Hx. subst y. f_equal. apply IH, Hab.
Qed.

(** A line that quits is no diagnosis attempt. *)
Lemma attempt_not_quit (m : text) : attempts_diagnosis m = true -> quits m = false.
Proof.
  intros H. destruct (quits m) eqn:Q; [|reflexivity].
  unfold quits in Q. cbn [existsb] in Q. rewrite orb_false_r in Q.
  unfold attempts_diagnosis in H.
  apply orb_true_iff in Q. destruct Q as [Q|Q]; apply text_eqb_eq in Q;
    rewrite Q in H; vm_compute in H; discriminate.
Qed.

Lemma interact_no_case (cl : client) (patient : VirtualPatient) (m : text) :
  current_case patient = None ->
  virtual_patient.VirtualPatient.interact cl patient m = (Return no_case_loaded, patient, [])
  /\ virtual_patient_2.VirtualPatient.interact cl patient m
     = (Return no_case_loaded, patient, []).
Proof.
  intros Hcase.
  unfold virtual_patient.VirtualPatient.interact, virtual_patient_2.VirtualPatient.interact.
  rewrite Hcase. split; reflexivity.
Qed.

Lemma main_loop_no_case (turns : list (client * text)) (patient : VirtualPatient) :
  current_case patient = None ->
  diagnosis_made patient = false ->
  main_loop virtual_patient.VirtualPatient.interact patient turns
  = mkSession (map (fun _ => no_case_loaded) (before_quit turns))
              (if existsb (fun t => quits (snd t)) turns then Quit else EndOfInput)
              []
  /\ main_loop virtual_patient_2.VirtualPatient.interact patient turns
     = mkSession (map (fun _ => no_case_loaded) (before_quit turns))
                 (if existsb (fun t => quits (snd t)) turns then Quit else EndOfInput)
                 [].
Proof.
  intros Hcase Hmade. induction turns as [|[cl m] rest [IH1 IH2]]; [split; reflexivity|].
  cbn [main_loop before_quit existsb snd].
  destruct (quits m); [split; reflexivity|].
  destruct (interact_no_case cl patient m Hcase) as [E1 E2].
  rewrite E1, E2, Hmade, IH1, IH2. split; reflexivity.
Qed.

Lemma interact_attempt (cl : client) (patient : VirtualPatient) (case : CaseRecord)
    (m : text) :
  current_case patient = Some case ->
  attempts_diagnosis m = true ->
  virtual_patient.VirtualPatient.interact cl patient m
  = (Return (if attempt_correct case m then correct_feedback (diagnosis case)
             else incorrect_feedback (diagnosis case)),
     mkVP (conversation_history patient) (all_cases patient) (Some case) true
          (attempt_correct case m),
     []).
Proof.
  intros Hcase Hm. unfold virtual_patient.VirtualPatient.interact.
  unfold attempts_diagnosis in Hm. rewrite Hcase, Hm.
  unfold virtual_patient.VirtualPatient.check_diagnosis.
  cbn [current_case conversation_history all_cases diagnosis_made diagnosis_correct].
  rewrite Hcase. unfold attempt_correct.
  destruct (above_threshold _); reflexivity.
Qed.

Lemma interact_question (cl : client) (patient : VirtualPatient) (case : CaseRecord)
    (m : text) :
  current_case patient = Some case ->
  attempts_diagnosis m = false ->
  (forall request, exists reply, cl request = Return reply) ->
  exists reply request patient',
    virtual_patient.VirtualPatient.interact cl patient m
    = (Return reply, patient', [request])
    /\ cl request = Return reply
    /\ current_case patient' = Some case
    /\ diagnosis_made patient' = diagnosis_made patient.
Proof.
  intros Hcase Hm Hcl. unfold virtual_patient.VirtualPatient.interact.
  unfold attempts_diagnosis in Hm. rewrite Hcase, Hm.
  cbn [current_case conversation_history all_cases diagnosis_made diagnosis_correct].
  match goal with |- context [cl ?r] => destruct (Hcl r) as [reply Hr]; rewrite Hr;
    exists reply, r end.
  eexists. split; [reflexivity|]. split; [exact Hr|]. split; reflexivity.
Qed.

Lemma main_loop_attempt (pre : list (client * text)) (cl : client) (m : text)
    (rest : list (client * text)) (case : CaseRecord) : forall patient,
  current_case patient = Some case ->
  diagnosis_made patient = false ->
  Forall (fun t => quits (snd t) = false /\ attempts_diagnosis (snd t) = false
                   /\ forall request, exists reply, fst t request = Return reply) pre ->
  attempts_diagnosis m = true ->
  let session :=
    main_loop virtual_patient.VirtualPatient.interact patient (pre ++ (cl, m) :: rest) in
  ended session
  = Scored (if attempt_correct case m then mkScore 1 (txt "Correct diagnosis!")
            else mkScore 0 (txt "Incorrect diagnosis. Review the case details."))
  /\ (exists answers,
        replies session
        = answers ++ [if attempt_correct case m then correct_feedback (diagnosis case)
                      else incorrect_feedback (diagnosis case)]
        /\ Forall2 (fun t answer => exists request, fst t request = Return answer)
                   pre answers)
  /\ List.length (requests session) = List.length pre.
Proof.
  induction pre as [|[cl0 m0] pre IH]; intros patient Hcase Hmade Hpre Hm session;
    subst session.
  - cbn [app main_loop]. rewrite (attempt_not_quit m Hm).
    rewrite (interact_attempt cl patient case m Hcase Hm).
    cbn [diagnosis_made replies ended requests List.length].
    split; [|split; [|reflexivity]].
    + unfold get_score. cbn [diagnosis_made diagnosis_correct negb].
      destruct (attempt_correct case m); reflexivity.
    + exists []. split; [reflexivity|constructor].
  - inversion Hpre as [|? ? (Hq & Ha & Hcl) Hpre']; subst. cbn [fst snd] in *.
    cbn [app main_loop]. rewrite Hq.
    destruct (interact_question cl0 patient case m0 Hcase Ha Hcl)
      as (reply & request & patient' & E & Hr & Hcase' & Hmade').
    rewrite E, Hmade', Hmade.
    destruct (IH patient' Hcase' (eq_trans Hmade' Hmade) Hpre' Hm)
      as (He & (answers & Hrep & Hall) & Hlen).
    cbn [replies ended requests]. split; [exact He|split].
    + exists (reply :: answers). rewrite Hrep. split; [reflexivity|].
      constructor; [exists request; exact Hr|exact Hall].
    + cbn [app List.length]. rewrite Hlen. reflexivity.
Qed.




(** X16: when the loader of the first file returns no record (an empty
    file, for one), its command-line session starts all the same: every
    line typed before the first quit or exit, a diagnosis attempt
    included, is answered with "No case loaded. Please load a case
    first.", no request is sent, no score is ever shown, and the session
    ends at the first quit or exit, or with the end of the input. *)
Theorem main_without_cases (fs : filesystem) (turns : list (client * text)) :
  virtual_patient.CaseLoader.load_cases_from_file
    fs (txt "100cases without cover and ending.txt") = Return [] ->
  main fs turns
  = mkSession (map (fun _ => no_case_loaded) (before_quit turns))
              (if existsb (fun t => quits (snd t)) turns then Quit else EndOfInput)
              [].
Proof.
  intros Hload. unfold main, virtual_patient.VirtualPatient.load_cases_from_file.
  rewrite Hload. apply main_loop_no_case; reflexivity.
Qed.

Lemma main_without_cases_witness :
  main (one_file (txt "100cases without cover and ending.txt") [])
       [(echo_client, txt "What brings you here?");
        (failing_client, txt "I think this is the flu");
        (echo_client, txt "Quit");
        (echo_client, txt "Any fever?")]
  = mkSession [no_case_loaded; no_case_loaded] Quit [].
Proof.
  apply (main_without_cases
           (one_file (txt "100cases without cover and ending.txt") [])
           [(echo_client, txt "What brings you here?");
            (failing_client, txt "I think this is the flu");
            (echo_client, txt "Quit");
            (echo_client, txt "Any fever?")]).
  vm_compute. reflexivity.
Defined.

(** X17: when the first file's loader returns at least one record, its
    command-line session is on the first record and ends with the first
    diagnosis attempt: if the lines before it neither quit nor hold a
    keyword and the service answers them, each is answered by the service
    with one request, and the attempt is answered with the feedback text
    and scored 1 with "Correct diagnosis!" when the extracted text is more
    than 0.8 similar to the record's diagnosis, 0 with "Incorrect
    diagnosis. Review the case details." otherwise.  Lines typed after
    the attempt are not read. *)
Theorem main_scores_first_attempt (fs : filesystem) (case : CaseRecord)
    (others : list CaseRecord) (pre : list (client * text)) (cl : client) (m : text)
    (rest : list (client * text)) :
  virtual_patient.CaseLoader.load_cases_from_file
    fs (txt "100cases without cover and ending.txt") = Return (case :: others) ->
  Forall (fun t => quits (snd t) = false /\ attempts_diagnosis (snd t) = false
                   /\ forall request, exists reply, fst t request = Return reply) pre ->
  attempts_diagnosis m = true ->
  let session := main fs (pre ++ (cl, m) :: rest) in
  ended session
  = Scored (if attempt_correct case m then mkScore 1 (txt "Correct diagnosis!")
            else mkScore 0 (txt "Incorrect diagnosis. Review the case details."))
  /\ (exists answers,
        replies session
        = answers ++ [if attempt_correct case m then correct_feedback (diagnosis case)
                      else incorrect_feedback (diagnosis case)]
        /\ Forall2 (fun t answer => exists request, fst t request = Return answer)
                   pre answers)
  /\ List.length (requests session) = List.length pre.
Proof.
  intros Hload Hpre Hm. unfold main, virtual_patient.VirtualPatient.load_cases_from_file.
  rewrite Hload. apply main_loop_attempt; [reflexivity|reflexivity|exact Hpre|exact Hm].
Qed.

Lemma main_scores_first_attempt_witness :
  let session :=
    main (one_file (txt "100cases without cover and ending.txt") two_cases_file)
         ([(echo_client, txt "When did it start?")]
          ++ (failing_client, txt "I think this is strep throat")
          :: [(echo_client, txt "Any fever?")]) in
  ended session
  = Scored (if attempt_correct sample_case (txt "I think this is strep throat")
            then mkScore 1 (txt "Correct diagnosis!")
            else mkScore 0 (txt "Incorrect diagnosis. Review the case details."))
  /\ (exists answers,
        replies session
        = answers ++ [if attempt_correct sample_case (txt "I think this is strep throat")
                      then correct_feedback (diagnosis sample_case)
                      else incorrect_feedback (diagnosis sample_case)]
        /\ Forall2 (fun t answer => exists request, fst t request = Return answer)
                   [(echo_client, txt "When did it start?")] answers)
  /\ List.length (requests session) = 1.
Proof.
  apply (main_scores_first_attempt
           (one_file (txt "100cases without cover and ending.txt") two_cases_file)
           sample_case
           [mkCase (txt "Unknown") (txt "cough")
                   (txt "Specialty: Unknown
Case 2: cough
Hx: 1 week")
                   (txt "bronchitis") (txt "2")]
           [(echo_client, txt "When did it start?")]
           failing_client (txt "I think this is strep throat")
           [(echo_client, txt "Any fever?")]).
  - vm_compute. reflexivity.
  - constructor; [|constructor]. split; [reflexivity|]. split; [reflexivity|].
    intros request. exists (txt "It started three days ago."). reflexivity.
  - vm_compute. reflexivity.
Defined.




(* ================================================================= *)
(** ** One specialty for a file *)

Lemma starts_lit_true (literal : text) : forall s,
  starts_lit NOFLAG literal s = true -> exists t, s = literal ++ t.
Proof.
  induction literal as [|ch literal IH]; intros s H.
  - exists s. reflexivity.
  - destruct s as [|x s]; [discriminate|]. cbn [starts_lit char_match] in H.
    apply andb_true_iff in H. destruct H as [Hx Hs].
    apply ascii_eqb_true in Hx. subst x. destruct (IH s Hs) as [t ->].
    exists t. reflexivity.
Qed.

Lemma heading_shape (pos : nat) (s : text) (m : Match) :
  match_at virtual_patient.CaseLoader.split_pattern pos s = Some m ->
  exists t, s = txt "Case" ++ t.
Proof.
  unfold match_at, virtual_patient.CaseLoader.split_pattern, str. cbn [cat].
  rewrite exec_ahead, exec_cat, exec_lits.
  destruct (starts_lit NOFLAG (txt "Case") s) eqn:E; [|discriminate].
  intros _. apply starts_lit_true, E.
Qed.

Lemma split_headed (s : text) : forall pos,
  Forall headed (tl (split_from virtual_patient.CaseLoader.split_pattern pos s)).
Proof.
  induction s as [|x s IH]; intros pos; cbn [split_from].
  - destruct (match_at _ pos []) as [m|] eqn:E; [|constructor].
    apply heading_shape in E. destruct E as [t E]. discriminate.
  - destruct (match_at _ pos (x :: s)) as [m|] eqn:E.
    + cbn [tl]. apply heading_shape in E. destruct E as [t E].
      cbn [app] in E. injection E as -> ->.
      specialize (IH (S pos)).
      change ("a"%char :: "s"%char :: "e"%char :: t) with (txt "ase" ++ t) in IH |- *.
      assert (Hside : forall before after, txt "ase" = before ++ after -> after <> [] ->
                match_at virtual_patient.CaseLoader.split_pattern (S pos + len before)
                         (after ++ t) = None).
      { intros before after Hsplit Hne.
        destruct (match_at _ _ (after ++ t)) as [m'|] eqn:E'; [|reflexivity].
        apply heading_shape in E'. destruct E' as [t' E'].
        change (txt "ase") with ["a"%char; "s"%char; "e"%char] in Hsplit.
        destruct before as [|b1 [|b2 [|b3 before]]]; cbn [app] in Hsplit.
        - subst after. discriminate E'.
        - injection Hsplit as _ Hs. subst after. discriminate E'.
        - injection Hsplit as _ _ Hs. subst after. discriminate E'.
        - injection Hsplit as _ _ _ Hs.
          destruct before; [cbn in Hs; subst after; contradiction|discriminate Hs]. }
      rewrite (split_from_skip _ t (txt "ase") (S pos) Hside) in IH |- *.
      destruct (split_from _ (S pos + len (txt "ase")) t) as [|p ps];
        cbn [tl] in IH; constructor; try reflexivity; try constructor; exact IH.
    + specialize (IH (S pos)).
      destruct (split_from _ (S pos) s) as [|p ps]; cbn [tl] in *; [constructor|exact IH].
Qed.

Lemma lstrip_app_nonspace (a : text) (x : ascii) (b : text) :
  isspace x = false -> lstrip (a ++ x :: b) = lstrip a ++ x :: b.
Proof.
  intros Hx. induction a as [|c a IH]; cbn [app lstrip].
  - rewrite Hx. reflexivity.
  - destruct (isspace c); [exact IH|reflexivity].
Qed.

Lemma rstrip_app_nonspace (u : text) (x : ascii) (v : text) :
  isspace x = false -> rstrip (u ++ x :: v) = u ++ x :: rstrip v.
Proof.
  intros Hx. unfold rstrip. rewrite rev_app_distr. cbn [rev].
  rewrite <- app_assoc. cbn [app]. rewrite (lstrip_app_nonspace _ _ _ Hx).
  rewrite rev_app_distr. cbn [rev]. rewrite rev_involutive, <- app_assoc. reflexivity.
Qed.

Lemma strip_headed (piece : text) :
  headed piece -> exists t, strip piece = txt "Case" ++ t.
Proof.
  intros H. apply startswith_true in H. destruct H as [t ->].
  exists (rstrip t). unfold strip. rewrite lstrip_fixed by reflexivity.
  apply (rstrip_app_nonspace (txt "Cas") "e"%char t). reflexivity.
Qed.

Lemma take_while_stop (p : ascii -> bool) (a : text) (x : ascii) (b : text) :
  p x = false -> take_while p (a ++ x :: b) = take_while p a.
Proof.
  intros Hx. induction a as [|c a IH]; cbn [app take_while].
  - rewrite Hx. reflexivity.
  - destruct (p c); [f_equal; exact IH|reflexivity].
Qed.

Lemma take_while_In (p : ascii -> bool) (c : ascii) (s : text) :
  In c (take_while p s) -> In c s.
Proof.
  induction s as [|x s IH]; cbn [take_while]; [intros []|].
  destruct (p x); [|intros []]. intros [H|H]; [left; exact H|right; apply IH, H].
Qed.

Lemma split_char_first (s : text) :
  nth 0 (split_char newline s) [] = take_while not_newline s.
Proof.
  induction s as [|c s IH]; [reflexivity|]. cbn [split_char take_while].
  unfold not_newline at 1. destruct (ascii_eqb c newline); [reflexivity|].
  cbn [negb]. destruct (split_char_cons newline s) as (line & lines & E).
  rewrite E in *. cbn [nth] in *. rewrite IH. reflexivity.
Qed.

Lemma parse_case_specialty (sp case : text) (r : CaseRecord) :
  virtual_patient.CaseLoader.parse_case (txt "Specialty: " ++ sp ++ [newline] ++ case)
  = Return r ->
  specialty r = specialty_read sp.
Proof.
  unfold virtual_patient.CaseLoader.parse_case. rewrite split_char_first.
  assert (E : take_while not_newline (txt "Specialty: " ++ sp ++ [newline] ++ case)
              = txt "Specialty: " ++ take_while not_newline sp).
  { cbn [app]. rewrite <- (take_while_stop not_newline sp newline case) by reflexivity.
    reflexivity. }
  rewrite E.
  change (startswith (txt "Specialty:") (txt "Specialty: " ++ take_while not_newline sp))
    with true. cbv iota.
  destruct (nth_error _ 1) as [line1|]; [|discriminate].
  destruct (match re_match _ line1 with Some _ => _ | None => _ end) as [num pc].
  destruct (virtual_patient.CaseLoader.find_diagnosis _ _) as [d ct].
  intros H. injection H as <-. reflexivity.
Qed.

Lemma load_loop_headed (pieces : list text) : forall processed sp records,
  Forall headed pieces ->
  virtual_patient.CaseLoader.load_loop pieces processed sp = Return records ->
  exists new,
    records = processed ++ new
    /\ Forall (fun r => specialty r = specialty_read sp) new.
Proof.
  induction pieces as [|piece pieces IH]; intros processed sp records Hh;
    cbn [virtual_patient.CaseLoader.load_loop].
  - intros H. injection H as <-. exists []. rewrite app_nil_r. split; constructor.
  - inversion Hh as [|? ? Hp Hps]; subst.
    destruct (strip_headed piece Hp) as [t ->].
    change (txt "Case" ++ t) with ("C"%char :: "a"%char :: "s"%char :: "e"%char :: t).
    cbv iota.
    change (isupper ("C"%char :: "a"%char :: "s"%char :: "e"%char :: t)) with false.
    change (startswith (txt "Case") ("C"%char :: "a"%char :: "s"%char :: "e"%char :: t))
      with true.
    cbn [andb]. cbv iota.
    destruct (virtual_patient.CaseLoader.parse_case _) as [r|e] eqn:Ep; [|discriminate].
    apply parse_case_specialty in Ep.
    destruct (case_details r); [apply IH, Hps|].
    intros H. destruct (IH _ _ _ Hps H) as (new & -> & Hnew).
    exists (r :: new). rewrite <- app_assoc. split; [reflexivity|].
    constructor; [exact Ep|exact Hnew].
Qed.

Lemma contains_chars (sub s : text) (c : ascii) :
  contains sub s = true -> In c sub -> In c s.
Proof.
  intros H Hin. apply contains_true in H. destruct H as (before & after & ->).
  apply in_or_app. right. apply in_or_app. left. exact Hin.
Qed.

Lemma specialty_read_upper (sp : text) :
  existsb islower_char sp = false ->
  specialty_read sp = strip (take_while not_newline sp).
Proof.
  intros Hsp. unfold specialty_read.
  change (replace (txt "Specialty:") [] (txt "Specialty: " ++ take_while not_newline sp))
    with (replace ("S"%char :: txt "pecialty:") []
            (("S"%char :: txt "pecialty:") ++ " "%char :: take_while not_newline sp)).
  rewrite replace_prefix. cbn [app].
  change ("S"%char :: txt "pecialty:") with (txt "Specialty:").
  rewrite replace_absent; [apply strip_space|].
  destruct (contains _ _) eqn:E; [|reflexivity]. exfalso.
  apply (contains_chars _ _ "p"%char) in E; [|cbn; tauto].
  destruct E as [E|E]; [discriminate|]. apply take_while_In in E.
  assert (H : existsb islower_char sp = true).
  { apply existsb_exists. exists "p"%char. split; [exact E|reflexivity]. }
  rewrite H in Hsp. discriminate.
Qed.

(** X20: all the records the first file's loader returns for a file carry
    the same specialty: the first line of the upper-case header shorter
    than 50 characters that stands before the first "Case <digits>:", or
    "Unknown" when there is none.  A header between two cases is never
    taken as a specialty: it is part of the case before it. *)
Theorem load_single_specialty (fs : filesystem) (filename content : text)
    (records : list CaseRecord) :
  fs filename = Return content ->
  virtual_patient.CaseLoader.load_cases_from_file fs filename = Return records ->
  Forall (fun r => specialty r = strip (take_while not_newline (file_specialty content)))
         records.
Proof.
  intros Hfs. unfold virtual_patient.CaseLoader.load_cases_from_file. rewrite Hfs.
  destruct (virtual_patient.CaseLoader.load_loop _ _ _) as [l|e] eqn:E; [|discriminate].
  intros H. injection H as <-.
  unfold file_specialty, re_split in *.
  pose proof (split_headed content 0) as Hh.
  destruct (split_from_cons virtual_patient.CaseLoader.split_pattern content 0)
    as (first & others & Es).
  rewrite Es in *. cbn [tl hd] in *.
  assert (Hu : specialty_read (txt "Unknown") = strip (take_while not_newline (txt "Unknown")))
    by reflexivity.
  cbn [virtual_patient.CaseLoader.load_loop] in E.
  destruct (strip first) as [|c top] eqn:Etop.
  - destruct (load_loop_headed _ _ _ _ Hh E) as (new & -> & Hnew).
    rewrite <- Hu. exact Hnew.
  - destruct (isupper (c :: top) && (len (c :: top) <? 50)) eqn:Eup.
    + destruct (load_loop_headed _ _ _ _ Hh E) as (new & -> & Hnew).
      rewrite <- specialty_read_upper; [exact Hnew|].
      apply andb_true_iff in Eup. destruct Eup as [Eup _]. unfold isupper in Eup.
      apply andb_true_iff in Eup. destruct Eup as [Eup _].
      apply negb_true_iff in Eup. exact Eup.
    + rewrite <- Hu. destruct (startswith (txt "Case") (c :: top)).
      * destruct (virtual_patient.CaseLoader.parse_case _) as [r|e] eqn:Ep; [|discriminate].
        apply parse_case_specialty in Ep.
        destruct (case_details r).
        -- destruct (load_loop_headed _ _ _ _ Hh E) as (new & -> & Hnew). exact Hnew.
        -- destruct (load_loop_headed _ _ _ _ Hh E) as (new & -> & Hnew).
           constructor; [exact Ep|exact Hnew].
      * destruct (load_loop_headed _ _ _ _ Hh E) as (new & -> & Hnew). exact Hnew.
Qed.

Lemma load_single_specialty_witness :
  Forall (fun r => specialty r = txt "CARDIOLOGY")
         [mkCase (txt "CARDIOLOGY") (txt "chest pain")
                 (txt "Specialty: CARDIOLOGY
Case 1: chest pain


RESPIRATORY")
                 (txt "angina") (txt "1");
          mkCase (txt "CARDIOLOGY") (txt "cough")
                 (txt "Specialty: CARDIOLOGY
Case 2: cough")
                 (txt "asthma") (txt "2")].
Proof.
  apply (load_single_specialty
           (one_file (txt "cases.txt") (txt "CARDIOLOGY
Case 1: chest pain
Diagnosis: angina

RESPIRATORY
Case 2: cough
Diagnosis: asthma
"))
           (txt "cases.txt") (txt "CARDIOLOGY
Case 1: chest pain
Diagnosis: angina

RESPIRATORY
Case 2: cough
Diagnosis: asthma
") _ eq_refl).
  vm_compute. reflexivity.
Defined.
